(** * FromSamToGarm: the exercise pipeline of [exercises.py]

    A shallow embedding of the reconciliation of positional and live
    samples ([find_nearest_time], [merge_location_and_live_data]) and of
    the assembly of the TCX tree ([create_lap], [create_trackpoint],
    [build_xml], [prepare_exercise_data]), followed by the properties
    the specification states about them.

    Conventions of the embedding.
    - A Python dictionary with a fixed set of possible keys is a record
      whose optional keys are [option] fields; [d.get(k)] is the field,
      [k in d] is [is_Some].
    - [merged_data], a dictionary keyed by timestamps, is a [gmap Z _];
      [dict(sorted(merged_data.items()))] is the list of its bindings in
      ascending key order.
    - A raised exception is [None] in the option monad.
    - JSON numbers are [pynum]: a Python [int] or a finite [float], the
      latter standing for the rational it denotes. *)

From Stdlib Require Import ZArith QArith Ascii String.
From stdpp Require Import gmap strings list sorting.

Local Open Scope Z_scope.
#[local] Set Warnings "-clear-no-such-hyp".

(** ** Python numbers *)

Inductive pynum :=
  | PyInt (z : Z)
  | PyFloat (q : Q).

(** Truth value of a number: anything but zero. *)
Definition num_truthy (n : pynum) : bool :=
  match n with
  | PyInt z => negb (z =? 0)
  | PyFloat q => negb (Qnum q =? 0)
  end.

(** [int(n)]: truncation towards zero. *)
Definition py_int (n : pynum) : Z :=
  match n with
  | PyInt z => z
  | PyFloat q => Z.quot (Qnum q) (Z.pos (Qden q))
  end.

Definition int_truthy (z : Z) : bool := negb (z =? 0).

(** ** Sample stores *)

(** One element of the location data: [start_time], [latitude],
    [longitude] and, optionally, [altitude]. *)
Record location_entry := LocationEntry {
  loc_start_time : Z;
  loc_latitude : pynum;
  loc_longitude : pynum;
  loc_altitude : option pynum
}.

(** One element of the live data: [start_time] and any of [distance],
    [cadence], [heart_rate], [speed]. *)
Record live_entry := LiveEntry {
  live_start_time : Z;
  live_distance : option pynum;
  live_cadence : option pynum;
  live_heart_rate : option pynum;
  live_speed : option pynum
}.

(** ** find_nearest_time *)

(** One turn of the loop over [timestamps]. *)
Definition nearer (ts closest_match t : Z) : Z :=
  if bool_decide (Z.abs (t - ts) < Z.abs (closest_match - ts))
  then t else closest_match.

Definition scan_nearest (ts : Z) (timestamps : list Z) (closest_match : Z) : Z :=
  fold_left (nearer ts) timestamps closest_match.

Definition sorted_timestamps (data : list location_entry) : list Z :=
  merge_sort Z.le (loc_start_time <$> data).

Definition find_nearest_time (ts : Z) (data : list location_entry) : Z :=
  scan_nearest ts (sorted_timestamps data) 0.

(** [x] is the first element of [l] whose distance to [ts] is minimal:
    the element a scan from the left keeps when it only replaces its
    best on a strict improvement. *)
Definition first_minimizer (ts : Z) (l : list Z) (x : Z) : Prop :=
  ∃ i : nat,
    l !! i = Some x ∧
    (∀ (j : nat) y, l !! j = Some y → Z.abs (x - ts) ≤ Z.abs (y - ts)) ∧
    (∀ (j : nat) y, (j < i)%nat → l !! j = Some y →
                    Z.abs (x - ts) < Z.abs (y - ts)).

(** ** Observations: the values of [merged_data] *)

Record observation := Observation {
  time : string;
  latitude : option pynum;
  longitude : option pynum;
  altitude : option pynum;
  distance : option pynum;
  cadence : option pynum;
  heart_rate : option Z;
  speed : option pynum
}.

(** The dictionary [{"time": time}]. *)
Definition bare (t : string) : observation :=
  Observation t None None None None None None None.

Definition set_distance (v : pynum) (o : observation) : observation :=
  Observation (time o) (latitude o) (longitude o) (altitude o)
              (Some v) (cadence o) (heart_rate o) (speed o).

Definition set_cadence (v : pynum) (o : observation) : observation :=
  Observation (time o) (latitude o) (longitude o) (altitude o)
              (distance o) (Some v) (heart_rate o) (speed o).

Definition set_heart_rate (v : Z) (o : observation) : observation :=
  Observation (time o) (latitude o) (longitude o) (altitude o)
              (distance o) (cadence o) (Some v) (speed o).

Definition set_speed (v : pynum) (o : observation) : observation :=
  Observation (time o) (latitude o) (longitude o) (altitude o)
              (distance o) (cadence o) (heart_rate o) (Some v).

(** A key of the loop [for key in ["distance", "cadence", "heart_rate",
    "speed"]]: how to read it, how to write it, and the truth value of
    what it holds. *)
Record field (A : Type) := Field {
  f_get : observation → option A;
  f_set : A → observation → observation;
  f_truthy : A → bool
}.
Arguments f_get {A} _ _.
Arguments f_set {A} _ _ _.
Arguments f_truthy {A} _ _.

Definition distance_key : field pynum := Field pynum distance set_distance num_truthy.
Definition cadence_key : field pynum := Field pynum cadence set_cadence num_truthy.
Definition heart_rate_key : field Z := Field Z heart_rate set_heart_rate int_truthy.
Definition speed_key : field pynum := Field pynum speed set_speed num_truthy.

(** The body of the loop over the keys, for one key whose value in the
    live entry is [v] ([None] when the entry lacks the key):
<<
    if entry.get(key):
        if ts not in merged_data:
            merged_data[ts] = {"time": time, key: entry[key]}
        if key not in merged_data[ts]:
            merged_data[ts][key] = entry[key]
>> *)
Definition store_field {A} (f : field A) (ts : Z) (t : string)
    (v : option A) (merged_data : gmap Z observation) : gmap Z observation :=
  match v with
  | Some x =>
      if f_truthy f x then
        let merged_data :=
          match merged_data !! ts with
          | None => <[ts := f_set f x (bare t)]> merged_data
          | Some _ => merged_data
          end in
        match merged_data !! ts with
        | Some o =>
            match f_get f o with
            | None => <[ts := f_set f x o]> merged_data
            | Some _ => merged_data
            end
        | None => merged_data
        end
      else merged_data
  | None => merged_data
  end.

Definition key_le (p q : Z * observation) : Prop := p.1 ≤ q.1.

Global Instance key_le_dec : RelDecision key_le.
Proof. intros p q. unfold key_le. apply _. Defined.

(** [dict(sorted(merged_data.items()))]: keys are unique, so the order
    of the pairs is the order of their keys. *)
Definition sorted_items (merged_data : gmap Z observation) : list (Z * observation) :=
  merge_sort key_le (map_to_list merged_data).

(** The last loop of the merge, over the sorted dictionary, with the
    running [hr]. *)
Fixpoint fill_heart_rate (hr : Z) (items : list (Z * observation))
    : list (Z * observation) :=
  match items with
  | [] => []
  | (d, o) :: rest =>
      match heart_rate o with
      | Some h =>
          if int_truthy h then (d, o) :: fill_heart_rate h rest
          else (d, set_heart_rate hr o) :: fill_heart_rate hr rest
      | None => (d, set_heart_rate hr o) :: fill_heart_rate hr rest
      end
  end.

(** ** The TCX tree *)

Inductive tag :=
  | Tag (name : string)
  | QName (namespace name : string).

Global Instance tag_eq_dec : EqDecision tag.
Proof. solve_decision. Defined.

(** Text of a node: a string of the program, or [str(n)] of a number. *)
Inductive text :=
  | Str (s : string)
  | StrNum (n : pynum).

#[warnings="-register-all"]
Inductive element :=
  | Element (name : tag) (attrib : list (tag * string))
            (content : option text) (children : list element).

Definition el_tag (e : element) : tag :=
  match e with Element n _ _ _ => n end.
Definition el_text (e : element) : option text :=
  match e with Element _ _ c _ => c end.
Definition el_children (e : element) : list element :=
  match e with Element _ _ _ cs => cs end.

(** [parent.append(child)]. *)
Definition append (parent child : element) : element :=
  match parent with
  | Element n a c cs => Element n a c (cs ++ [child])
  end.

(** [XML.SubElement(parent, ...)], as a statement on the parent; no
    such statement raises. *)
Definition sub_element (child parent : element) : option element :=
  Some (append parent child).

(** [if b: stmt], as a statement on an element. *)
Definition when_true (b : bool) (stmt : element → option element)
    (e : element) : option element :=
  if b then stmt e else Some e.

(** A node with text and no children. *)
Definition leaf (n : tag) (c : text) : element := Element n [] (Some c) [].

(** The children of [e] named [n]. *)
Definition children_named (n : string) (e : element) : list element :=
  filter (λ c, el_tag c = Tag n) (el_children e).

Definition has_child (n : string) (e : element) : bool :=
  bool_decide (children_named n e ≠ []).

Definition ns3 : string := "http://www.garmin.com/xmlschemas/ActivityExtension/v2".
Definition xsi : string := "http://www.w3.org/2001/XMLSchema-instance".
Definition ns3_tag (name : string) : tag := QName ns3 name.

Definition str_truthy (s : string) : bool := negb (String.eqb s "").
Definition opt_truthy {A} (truthy : A → bool) (v : option A) : bool :=
  match v with Some x => truthy x | None => false end.

(** [round(x, 0)] followed by [int]: the nearest integer, ties to even. *)
Definition round_half_even (q : Q) : Z :=
  let n := Qnum q in
  let d := Z.pos (Qden q) in
  let fl := n / d in
  let r2 := 2 * (n - fl * d) in
  if r2 <? d then fl
  else if d <? r2 then fl + 1
  else if Z.even fl then fl else fl + 1.

(** [s.replace(" ", "T")]. *)
Fixpoint replace_space_T (s : string) : string :=
  match s with
  | EmptyString => EmptyString
  | String c rest =>
      String (if Ascii.eqb c " "%char then "T"%char else c) (replace_space_T rest)
  end.

Definition convert_activity_type (stype : string) : string :=
  if String.eqb stype "1002" then "Running"
  else if String.eqb stype "11007" then "Biking"
  else "Other".

(** [create_trackpoint]: [None] is a [KeyError], [Some None] the
    returned [None] of an empty trackpoint. *)
Definition create_trackpoint (data : observation) : option (option element) :=
  let trackpoint :=
    Element (Tag "Trackpoint") [] None [leaf (Tag "Time") (Str (time data))] in
  trackpoint ←
    when_true (opt_truthy num_truthy (altitude data)
               && opt_truthy num_truthy (longitude data))
      (λ trackpoint,
         lat ← latitude data;
         lon ← longitude data;
         sub_element (Element (Tag "Position") [] None
                        [leaf (Tag "LatitudeDegrees") (StrNum lat);
                         leaf (Tag "LongitudeDegrees") (StrNum lon)]) trackpoint)
      trackpoint;
  trackpoint ←
    when_true (opt_truthy int_truthy (heart_rate data))
      (λ trackpoint,
         h ← heart_rate data;
         sub_element (Element (Tag "HeartRateBpm") [] None
                        [leaf (Tag "Value") (StrNum (PyInt h))]) trackpoint)
      trackpoint;
  trackpoint ←
    when_true (opt_truthy num_truthy (cadence data))
      (λ trackpoint,
         c ← cadence data;
         sub_element (leaf (Tag "Cadence") (StrNum c)) trackpoint)
      trackpoint;
  if bool_decide (length (el_children trackpoint) = 1%nat)
  then Some None
  else Some (Some trackpoint).

Definition create_activity (id sport : string) : element :=
  Element (Tag "Activity") [(Tag "Sport", sport)] None [leaf (Tag "Id") (Str id)].

Definition create_root : element :=
  Element (Tag "TrainingCenterDatabase")
    [(QName xsi "schemaLocation",
      "http://www.garmin.com/xmlschemas/TrainingCenterDatabase/v2 http://www.garmin.com/xmlschemas/TrainingCenterDatabasev2.xsd");
     (Tag "version", "1.1")]
    None
    [Element (Tag "Activities") [] None []].

(** The [track] of [build_xml]: the trackpoints that are not [None]. *)
Definition build_track (trackpoints : list (option element)) : element :=
  fold_left (λ track tp, match tp with Some e => append track e | None => track end)
            trackpoints (Element (Tag "Track") [] None []).

(** The tree [build_xml] serialises. [lap] is one object, appended to
    the activity and then given its track; the tree below is the one
    reachable from [root] when [build_xml] returns. *)
Definition build_tree (a_id ex_type : string) (lap : element)
    (trackpoints : list (option element)) : element :=
  let root := create_root in
  let activity := create_activity a_id ex_type in
  let track := build_track trackpoints in
  let lap := if bool_decide (0 < length (el_children track))%nat
             then append lap track else lap in
  let activity := append activity lap in
  match root with
  | Element n a c (activities :: others) =>
      Element n a c (append activities activity :: others)
  | _ => root
  end.

(** The lap of a document: root, first child, its activity, its lap. *)
Definition document_lap (root : element) : option element :=
  activities ← head (el_children root);
  activity ← head (children_named "Activity" activities);
  head (children_named "Lap" activity).

(** ** The parts that need the Python library *)

Section Exercises.

(** [datetime.datetime.fromtimestamp(ts / 1000, utc).strftime(
    "%Y-%m-%dT%H:%M:%S.000Z")]; [None] when the timestamp is outside the
    range of [datetime]. *)
Variable utc_time_string : Z → option string.

(** [int(s)] and [float(s)] of a string; [None] is [ValueError]. *)
Variable int_of_string : string → option Z.
Variable float_of_string : string → option Q.

(** The JSON files of an exercise; [None] when reading or parsing fails. *)
Variable fetch_live_data : string → option (list live_entry).
Variable fetch_location_data : string → option (list location_entry).

(** [XML.tostring(root, ...)]. *)
Variable tostring : element → string.

(** *** merge_location_and_live_data *)

(** One turn of the loop over [locationdata]. *)
Definition location_step (merged_data : gmap Z observation) (entry : location_entry)
    : option (gmap Z observation) :=
  t ← utc_time_string (loc_start_time entry);
  match merged_data !! loc_start_time entry with
  | None =>
      Some (<[loc_start_time entry :=
                Observation t (Some (loc_latitude entry)) (Some (loc_longitude entry))
                            (loc_altitude entry) None None None None]> merged_data)
  | Some _ => Some merged_data
  end.

Fixpoint location_loop (merged_data : gmap Z observation) (locationdata : list location_entry)
    : option (gmap Z observation) :=
  match locationdata with
  | [] => Some merged_data
  | entry :: rest =>
      merged_data ← location_step merged_data entry;
      location_loop merged_data rest
  end.

(** The timestamp a live entry is stored under: its own when it is a
    key already or when there is no location data, the nearest one of
    the location data otherwise. *)
Definition effective_time (locationdata : list location_entry)
    (merged_data : gmap Z observation) (ts : Z) : Z :=
  if bool_decide (merged_data !! ts = None)
     && bool_decide (locationdata ≠ [])
  then find_nearest_time ts locationdata
  else ts.

(** One turn of the loop over [livedata]. The entry is a dictionary of
    the caller's list and is written to ([start_time], [heart_rate]);
    the turn returns the dictionary as it leaves it. *)
Definition live_step (locationdata : list location_entry)
    (merged_data : gmap Z observation) (entry : live_entry)
    : option (gmap Z observation * live_entry) :=
  let ts := effective_time locationdata merged_data (live_start_time entry) in
  t ← utc_time_string ts;
  let hr := py_int <$> live_heart_rate entry in
  let entry :=
    LiveEntry ts (live_distance entry) (live_cadence entry)
              (PyInt <$> hr) (live_speed entry) in
  let merged_data := store_field distance_key ts t (live_distance entry) merged_data in
  let merged_data := store_field cadence_key ts t (live_cadence entry) merged_data in
  let merged_data := store_field heart_rate_key ts t hr merged_data in
  let merged_data := store_field speed_key ts t (live_speed entry) merged_data in
  Some (merged_data, entry).

(** The loop over [livedata]: the dictionary, and the entries of
    [livedata] as the loop leaves them. *)
Fixpoint live_loop (locationdata : list location_entry)
    (merged_data : gmap Z observation) (livedata : list live_entry)
    : option (gmap Z observation * list live_entry) :=
  match livedata with
  | [] => Some (merged_data, [])
  | entry :: rest =>
      '(merged_data, entry) ← live_step locationdata merged_data entry;
      '(merged_data, rest) ← live_loop locationdata merged_data rest;
      Some (merged_data, entry :: rest)
  end.

(** [merged_data] before it is sorted, with [livedata] as the two loops
    leave it. *)
Definition merge_unsorted (locationdata : list location_entry) (livedata : list live_entry)
    : option (gmap Z observation * list live_entry) :=
  merged_data ← location_loop ∅ locationdata;
  live_loop locationdata merged_data livedata.

(** The value [merge_location_and_live_data] returns, as the list of
    its items in order, together with [livedata] as the call leaves it
    ([locationdata] is only read). *)
Definition merge_location_and_live_data (locationdata : list location_entry)
    (livedata : list live_entry)
    : option (list (Z * observation) * list live_entry) :=
  '(merged_data, livedata) ← merge_unsorted locationdata livedata;
  Some (fill_heart_rate 0 (sorted_items merged_data), livedata).

(** *** create_lap *)

Definition heart_rate_node (n : string) (v : Q) : element :=
  Element (Tag n) [] None [leaf (Tag "Value") (StrNum (PyInt (py_int (PyFloat v))))].

(** [create_lap]. Each [if] of the function is a statement on [lap],
    run by [when_true] when its condition holds. *)
Definition create_lap (start_time duration distance calories avg_hr max_hr
    avg_speed max_speed avg_cadence max_cadence : string) : option element :=
  let lap := Element (Tag "Lap") [(Tag "StartTime", start_time)] None [] in
  lap ← when_true (str_truthy duration)
          (λ lap, d ← int_of_string duration;
                  sub_element (leaf (Tag "TotalTimeSeconds")
                                    (StrNum (PyFloat (Qmake d 1000)))) lap) lap;
  lap ← when_true (str_truthy distance)
          (sub_element (leaf (Tag "DistanceMeters") (Str distance))) lap;
  lap ← when_true (str_truthy max_speed)
          (sub_element (leaf (Tag "MaximumSpeed") (Str max_speed))) lap;
  lap ← when_true (str_truthy calories)
          (λ lap, c ← float_of_string calories;
                  sub_element (leaf (Tag "Calories")
                                    (StrNum (PyInt (round_half_even c)))) lap) lap;
  lap ← when_true (str_truthy avg_hr && negb (String.eqb avg_hr "0.0"))
          (λ lap, v ← float_of_string avg_hr;
                  sub_element (heart_rate_node "AverageHeartRateBpm" v) lap) lap;
  lap ← when_true (str_truthy max_hr && negb (String.eqb avg_hr "0.0"))
          (λ lap, v ← float_of_string max_hr;
                  sub_element (heart_rate_node "MaximumHeartRateBpm" v) lap) lap;
  lap ← sub_element (leaf (Tag "Intensity") (Str "Active")) lap;
  lap ← sub_element (leaf (Tag "TriggerMethod") (Str "Manual")) lap;
  when_true (str_truthy avg_speed || str_truthy avg_cadence || str_truthy max_cadence)
    (λ lap,
       let lx := Element (ns3_tag "LX") [] None [] in
       lx ← when_true (str_truthy avg_speed && negb (String.eqb avg_speed "0.0"))
              (sub_element (leaf (ns3_tag "AvgSpeed") (Str avg_speed))) lx;
       lx ← when_true (str_truthy avg_cadence && negb (String.eqb avg_cadence "0.0"))
              (sub_element (leaf (ns3_tag "AvgRunCadence") (Str avg_cadence))) lx;
       lx ← when_true (str_truthy max_cadence && negb (String.eqb max_cadence "0.0"))
              (sub_element (leaf (ns3_tag "MaxRunCadence") (Str max_cadence))) lx;
       sub_element (Element (Tag "Extensions") [] None [lx]) lap)
    lap.

(** *** build_xml and prepare_exercise_data *)

Definition build_xml (a_id ex_type : string) (lap : element)
    (trackpoints : list (option element)) : string :=
  tostring (build_tree a_id ex_type lap trackpoints).

(** One row of the exercise list. *)
Record exercise := Exercise {
  ex_datauuid : string;
  ex_start_time : string;
  ex_total_calorie : string;
  ex_duration : string;
  ex_exercise_type : string;
  ex_heart_rate_sample_count : string;
  ex_mean_heart_rate : string;
  ex_max_heart_rate : string;
  ex_min_heart_rate : string;
  ex_mean_speed : string;
  ex_max_speed : string;
  ex_mean_cadence : string;
  ex_max_cadence : string;
  ex_distance : string;
  ex_location_data : string;
  ex_live_data : string
  }.

(** The tree of one exercise. The function reads the two flags and the
    identifier from the module-level [ex], the variable of the loop that
    calls it, and everything else from its argument [exercise]. *)
Definition exercise_tree (ex exercise : exercise) : option element :=
  let t := (replace_space_T (ex_start_time exercise) ++ "Z")%string in
  let ex_type := convert_activity_type (ex_exercise_type exercise) in
  lap ← create_lap t (ex_duration exercise) (ex_distance exercise)
        (ex_total_calorie exercise) (ex_mean_heart_rate exercise)
        (ex_max_heart_rate exercise) (ex_mean_speed exercise)
        (ex_max_speed exercise) (ex_mean_cadence exercise)
        (ex_max_cadence exercise);
  live_data ←
    (if str_truthy (ex_live_data ex) then fetch_live_data (ex_datauuid ex) else Some []);
  location_data ←
    (if str_truthy (ex_location_data ex)
     then fetch_location_data (ex_datauuid ex) else Some []);
  '(data, _) ← merge_location_and_live_data location_data live_data;
  trackpoints ← mapM (λ d, create_trackpoint d.2) data;
  Some (build_tree t ex_type lap trackpoints).

Definition prepare_exercise_data (ex exercise : exercise) : option string :=
  tostring <$> exercise_tree ex exercise.

(** The loop of the script calls the function on its own variable. *)
Definition export_exercise (ex : exercise) : option string :=
  prepare_exercise_data ex ex.

End Exercises.

(** ** Notions used to state the properties *)

(** What [x] holds, [y] holds too. *)
Definition keeps {A} (x y : option A) : Prop := ∀ v, x = Some v → y = Some v.

(** [o'] has every value [o] has: nothing stored in [o] was replaced. *)
Definition obs_extends (o o' : observation) : Prop :=
  time o' = time o ∧
  keeps (latitude o) (latitude o') ∧
  keeps (longitude o) (longitude o') ∧
  keeps (altitude o) (altitude o') ∧
  keeps (distance o) (distance o') ∧
  keeps (cadence o) (cadence o') ∧
  keeps (heart_rate o) (heart_rate o') ∧
  keeps (speed o) (speed o').

(** [o'] has the position of [o], no more and no less. *)
Definition same_position (o o' : observation) : Prop :=
  latitude o' = latitude o ∧ longitude o' = longitude o ∧ altitude o' = altitude o.

(** What the loop over the live data may do to a value. *)
Definition obs_grows (o o' : observation) : Prop :=
  obs_extends o o' ∧ same_position o o'.

(** Every key of [m] is a key of [m'], with a value related by [R]. *)
Definition map_rel (R : relation observation) (m m' : gmap Z observation) : Prop :=
  ∀ k o, m !! k = Some o → ∃ o', m' !! k = Some o' ∧ R o o'.

(** Every key of [m] is a key of [m'], with every value it had. *)
Definition map_extends (m m' : gmap Z observation) : Prop := map_rel obs_extends m m'.

(** The same, for the items of the returned dictionary. *)
Definition items_extend (m : gmap Z observation) (items : list (Z * observation)) : Prop :=
  ∀ k o, m !! k = Some o → ∃ o', (k, o') ∈ items ∧ obs_extends o o'.

(** A field obeys the laws of a dictionary key: a written value is read
    back, and writing an absent key replaces nothing. *)
Class FieldLaws {A} (f : field A) : Prop := {
  get_set : ∀ x o, f_get f (f_set f x o) = Some x;
  set_new : ∀ x o, f_get f o = None → obs_extends o (f_set f x o);
  set_time : ∀ x o, time (f_set f x o) = time o;
  set_position : ∀ x o,
    latitude (f_set f x o) = latitude o ∧
    longitude (f_set f x o) = longitude o ∧
    altitude (f_set f x o) = altitude o
}.

(** The heart rate the item at place [i] holds before the last loop. *)
Definition own_reading (items : list (Z * observation)) (i : nat) (h : Z) : Prop :=
  ∃ k o, items !! i = Some (k, o) ∧ heart_rate o = Some h.

Definition no_reading (items : list (Z * observation)) (i : nat) : Prop :=
  ∃ k o, items !! i = Some (k, o) ∧ heart_rate o = None.

(** [h] is the reading of the item at place [i] if it has one, the
    reading of the nearest earlier item that has one otherwise, and
    [hr], which is 0 for the whole list, when there is none. *)
Definition last_reading_from (hr : Z) (items : list (Z * observation))
    (i : nat) (h : Z) : Prop :=
  own_reading items i h ∨
  (no_reading items i ∧
   ((∃ j, (j < i)%nat ∧ own_reading items j h ∧
          ∀ j', (j < j' < i)%nat → no_reading items j') ∨
    (h = hr ∧ ∀ j, (j < i)%nat → no_reading items j))).

Definition last_reading : list (Z * observation) → nat → Z → Prop :=
  last_reading_from 0.

(** No stored heart rate is 0: the loop over the keys stores true
    values only. *)
Definition hr_stored_ok (o : observation) : Prop := heart_rate o ≠ Some 0.

(** The live entry has a key the loop over the keys acts on: one whose
    value, the heart rate being an integer by then, is true. *)
Definition has_sensor_data (entry : live_entry) : bool :=
  opt_truthy num_truthy (live_distance entry)
  || opt_truthy num_truthy (live_cadence entry)
  || opt_truthy int_truthy (py_int <$> live_heart_rate entry)
  || opt_truthy num_truthy (live_speed entry).

(** What the loop over [livedata] writes into an entry stored under
    [ts]: the timestamp, and the heart rate as an integer. *)
Definition rewritten (ts : Z) (entry : live_entry) : live_entry :=
  LiveEntry ts (live_distance entry) (live_cadence entry)
            (PyInt <$> (py_int <$> live_heart_rate entry)) (live_speed entry).

(** The timestamp a live entry of timestamp [ts] ends with: its own
    when there is no location data or when it is a timestamp of the
    location data, the resolver's otherwise. *)
Definition snapped_time (locationdata : list location_entry) (ts : Z) : Z :=
  if bool_decide (locationdata = [] ∨ ts ∈ loc_start_time <$> locationdata)
  then ts else find_nearest_time ts locationdata.

(** A lap as [create_lap] returns it: named [Lap], without a track. *)
Definition lap_like (e : element) : Prop :=
  el_tag e = Tag "Lap" ∧ children_named "Track" e = [].

(** The trackpoint of an observation has a child named [n]. *)
Definition trackpoint_has (n : string) (data : observation) : Prop :=
  ∃ tp, create_trackpoint data = Some (Some tp) ∧ has_child n tp = true.

(** ** Sample data *)

(** The true values of the time conversion at the timestamps of the
    samples below. *)
Definition sample_clock (ts : Z) : option string :=
  if ts =? 1000 then Some "1970-01-01T00:00:01.000Z"
  else if ts =? 1400 then Some "1970-01-01T00:00:01.000Z"
  else if ts =? 2000 then Some "1970-01-01T00:00:02.000Z"
  else None.

(** The true values of [int] and [float] at the strings of the sample
    exercise below. *)
Definition sample_int_of_string (s : string) : option Z :=
  if String.eqb s "1800000" then Some 1800000 else None.

Definition sample_float_of_string (s : string) : option Q :=
  if String.eqb s "250.0" then Some (250 # 1)
  else if String.eqb s "180.0" then Some (180 # 1)
  else if String.eqb s "0.0" then Some (0 # 1)
  else None.

(** A run without live data, with one position that has an altitude. *)
Definition sample_exercise : exercise :=
  Exercise "a1" "2020-01-01 10:00:00.000" "250.0" "1800000" "1002" ""
           "" "" "" "" "" "" "" "5000.0" "a1.location_data.json" "".

Definition sample_locations_with_altitude : list location_entry :=
  [LocationEntry 1000 (PyFloat (10 # 1)) (PyFloat (20 # 1)) (Some (PyFloat (5 # 1)))].

Definition sample_fetch_location_data (uuid : string) : option (list location_entry) :=
  if String.eqb uuid "a1" then Some sample_locations_with_altitude else None.

Definition sample_fetch_live_data (uuid : string) : option (list live_entry) := None.

(** An exercise whose location file cannot be read. *)
Definition sample_unreadable_exercise : exercise :=
  Exercise "b2" "2020-01-02 10:00:00.000" "" "" "11007" ""
           "" "" "" "" "" "" "" "" "b2.location_data.json" "".

(** A serialisation that keeps the name of the root only. *)
Definition sample_tostring (e : element) : string :=
  match el_tag e with Tag n => n | QName _ n => n end.

Definition sample_locations : list location_entry :=
  [LocationEntry 1000 (PyInt 10) (PyInt 20) None;
   LocationEntry 2000 (PyInt 11) (PyInt 21) None].

Definition sample_live : list live_entry :=
  [LiveEntry 1400 None None (Some (PyInt 120)) None].

(** ** Notions used for the further properties *)

(** What the loop over the live data finds and keeps when there is
    location data: every timestamp of the location data is a key, and
    every key is such a timestamp or 0. *)
Definition keys_settled (locationdata : list location_entry)
    (m : gmap Z observation) : Prop :=
  locationdata ≠ [] →
  list_to_set (loc_start_time <$> locationdata) ⊆ dom m ∧
  dom m ⊆ list_to_set (loc_start_time <$> locationdata) ∪ {[0]}.

(** The order of the children of a trackpoint and of a lap in the
    schema of the docstrings. *)
Definition trackpoint_schema : list tag :=
  [Tag "Time"; Tag "Position"; Tag "HeartRateBpm"; Tag "Cadence"].

Definition lap_schema : list tag :=
  [Tag "TotalTimeSeconds"; Tag "DistanceMeters"; Tag "MaximumSpeed";
   Tag "Calories"; Tag "AverageHeartRateBpm"; Tag "MaximumHeartRateBpm";
   Tag "Intensity"; Tag "TriggerMethod"; Tag "Extensions"].

Definition el_attrib (e : element) : list (tag * string) :=
  match e with Element _ a _ _ => a end.

(** The names of the children of an element, in order. *)
Definition child_tags (e : element) : list tag := el_tag <$> el_children e.

(** [e'] is [e] with at most one more child, named [t], at the end. *)
Definition appends_at_most (t : tag) (e e' : element) : Prop :=
  el_tag e' = el_tag e ∧ el_attrib e' = el_attrib e ∧
  ∃ ts, child_tags e' = child_tags e ++ ts ∧ ts `sublist_of` [t].

(** [e'] is [e] with one more child, named [t], at the end. *)
Definition appends_one (t : tag) (e e' : element) : Prop :=
  el_tag e' = el_tag e ∧ el_attrib e' = el_attrib e ∧
  child_tags e' = child_tags e ++ [t].

(** ** The script *)

Section Script.

Variable utc_time_string : Z → option string.
Variable int_of_string : string → option Z.
Variable float_of_string : string → option Q.
Variable fetch_live_data : string → option (list live_entry).
Variable fetch_location_data : string → option (list location_entry).
Variable tostring : element → string.

(** The name of the file of an exercise:
    [f"exports/{ex['exercise_type']}_{date_code}_{ex['datauuid']}.tcx"]
    with [date_code = ex["start_time"][0:10]]. *)
Definition export_name (ex : exercise) : string :=
  ("exports/" ++ ex_exercise_type ex ++ "_" ++ substring 0 10 (ex_start_time ex)
   ++ "_" ++ ex_datauuid ex ++ ".tcx")%string.

(** [write_to_file]: the files are a map from names to contents, and
    opening a file for writing replaces what it held. *)
Definition write_to_file (filename xml : string) (files : gmap string string)
    : gmap string string :=
  <[filename := xml]> files.

(** The loop over the exercises at the end of the script.  An
    exception of [prepare_exercise_data] ends the script: the files are
    returned as they are then, with [false]. *)
Fixpoint export_loop (files : gmap string string) (exercises : list exercise)
    : gmap string string * bool :=
  match exercises with
  | [] => (files, true)
  | ex :: rest =>
      match prepare_exercise_data utc_time_string int_of_string float_of_string
                                  fetch_live_data fetch_location_data tostring ex ex with
      | Some xml => export_loop (write_to_file (export_name ex) xml files) rest
      | None => (files, false)
      end
  end.

End Script.

(** ** The other scripts: [activity.py] and [weight.py] *)

(** *** Writing rows to a series of files *)

(** A file of the series [<name>-export-<number>.csv]: its number and
    the rows written to it after the title and the header. *)
Record csv_file (R : Type) := CsvFile {
  file_number : nat;
  file_rows : list R
}.
Arguments CsvFile {R} _ _.
Arguments file_number {R} _.
Arguments file_rows {R} _.

(** [writer.writerow(row)] on the file that is open, the last one. *)
Definition writerow {R} (row : R) (files : list (csv_file R)) : list (csv_file R) :=
  match reverse files with
  | [] => []
  | dest :: closed =>
      reverse closed ++ [CsvFile (file_number dest) (file_rows dest ++ [row])]
  end.

(** One turn of the loop of [write_to_file], on the number of lines
    written and the files opened so far. *)
Definition write_line {R} (lines_per_file : nat) (st : nat * list (csv_file R))
    (row : R) : nat * list (csv_file R) :=
  let '(lines_written, files) := st in
  let files :=
    if (lines_written mod lines_per_file =? 0)%nat
    then files ++ [CsvFile (lines_written / lines_per_file + 1)%nat []]
    else files in
  (S lines_written, writerow row files).

Definition write_lines {R} (lines_per_file : nat) (rows : list R) : list (csv_file R) :=
  (fold_left (write_line lines_per_file) rows (0%nat, [])).2.

(** The files hold the rows [written], [lines_per_file] a file. *)
Definition chunked {R} (lines_per_file : nat) (files : list (csv_file R))
    (written : list R) : Prop :=
  concat (file_rows <$> files) = written ∧
  file_number <$> files = seq 1 (length files) ∧
  ((files = [] ∧ written = []) ∨
   ∃ full dest,
     files = full ++ [dest] ∧
     Forall (λ f, length (file_rows f) = lines_per_file) full ∧
     (1 ≤ length (file_rows dest) ≤ lines_per_file)%nat).

Module Activity.

(** One value of the dictionary of [fetch_activity_data]. *)
Record activity_day := ActivityDay {
  steps : Z;
  distance_km : pynum;
  minutes_sedentary : Z;
  minutes_lightly_active : Z;
  minutes_fairly_active : Z;
  minutes_very_active : Z;
  activity_calories : Z
}.

(** One value of [merged_data]: the keys ["Calories Burned"],
    ["Calories"], ["Floors"], and the seven keys of an activity, which
    [update] writes together. *)
Record day_row := DayRow {
  calories_burned : option Z;
  calories : option Z;
  floors : option Z;
  activity : option activity_day
}.

Definition set_calories (v : Z) (r : day_row) : day_row :=
  DayRow (calories_burned r) (Some v) (floors r) (activity r).
Definition set_floors (v : Z) (r : day_row) : day_row :=
  DayRow (calories_burned r) (calories r) (Some v) (activity r).
Definition update_activity (dic : activity_day) (r : day_row) : day_row :=
  DayRow (calories_burned r) (calories r) (floors r) (Some dic).

(** One row of the floors file, as the loop of [fetch_floor_data]
    reads it: [row["start_time"]] and [row["floor"]].  The date is
    [row["start_time"][0:10]], the floors [int(float(row["floor"]))];
    [None] is the [ValueError] of [float]. *)
Definition read_floor_row (float_of_string : string → option Q)
    (row : string * string) : option (string * Z) :=
  v ← float_of_string row.2;
  Some (substring 0 10 row.1, py_int (PyFloat v)).

(** What the loop does with the date and the floors of a row. *)
Definition add_floors (floor_data : gmap string Z) (item : string * Z)
    : gmap string Z :=
  let '(date, n) := item in
  match floor_data !! date with
  | Some total => <[date := total + n]> floor_data
  | None => <[date := n]> floor_data
  end.

(** The loop of [fetch_floor_data] over the rows of the file. *)
Fixpoint floor_loop (float_of_string : string → option Q)
    (floor_data : gmap string Z) (rows : list (string * string))
    : option (gmap string Z) :=
  match rows with
  | [] => Some floor_data
  | row :: rest =>
      item ← read_floor_row float_of_string row;
      floor_loop float_of_string (add_floors floor_data item) rest
  end.

(** The floors of the rows of a date, added up. *)
Definition floors_on (date : string) (items : list (string * Z)) : Z :=
  foldr Z.add 0 (filter (λ p, p.1 = date) items).*2.

(** The loop over [calories.items()]. *)
Definition calories_loop (calories_data : list (string * Z))
    (merged_data : gmap string day_row) : gmap string day_row :=
  fold_left (λ m '(date, cals), <[date := DayRow (Some cals) None None None]> m)
            calories_data merged_data.

(** One turn of the loop over [floors.items()]; [None] is the
    [KeyError] of [merged_data[date]]. *)
Definition floors_step (merged_data : gmap string day_row) (item : string * Z)
    : option (gmap string day_row) :=
  let '(date, f) := item in
  merged_data ←
    (if bool_decide (merged_data !! date = None)
     then row ← merged_data !! date;
          Some (<[date := set_calories 0 row]> merged_data)
     else Some merged_data);
  row ← merged_data !! date;
  Some (<[date := set_floors f row]> merged_data).

Fixpoint floors_loop (floors_data : list (string * Z))
    (merged_data : gmap string day_row) : option (gmap string day_row) :=
  match floors_data with
  | [] => Some merged_data
  | item :: rest =>
      merged_data ← floors_step merged_data item;
      floors_loop rest merged_data
  end.

(** One turn of the loop over [activities.items()]. *)
Definition activities_step (merged_data : gmap string day_row)
    (item : string * activity_day) : gmap string day_row :=
  let '(date, dic) := item in
  let dropkey := steps dic =? 0 in
  match merged_data !! date with
  | Some row =>
      if dropkey then delete date merged_data
      else <[date := update_activity dic row]> merged_data
  | None => <[date := DayRow None None None (Some dic)]> merged_data
  end.

Definition date_le (p q : string * day_row) : Prop := String.leb p.1 q.1 = true.

#[global] Instance date_le_dec : RelDecision date_le.
Proof. intros p q. unfold date_le. apply _. Defined.

(** [merge_data]; the dictionaries are given by their items, in order,
    and the result by its items, sorted by date. *)
Definition merge_data (floors_data calories_data : list (string * Z))
    (activities : list (string * activity_day))
    : option (list (string * day_row)) :=
  let merged_data := calories_loop calories_data ∅ in
  merged_data ← floors_loop floors_data merged_data;
  let merged_data := fold_left activities_step activities merged_data in
  Some (merge_sort date_le (map_to_list merged_data)).

(** [LINES_PER_FILE] of [activity.py]. *)
Definition LINES_PER_FILE : nat := 100.

(** [write_to_file]: every row gets its date and is written, a hundred
    rows a file.  Without rows no file is opened, and the failing
    [dest.close()] is caught. *)
Definition write_to_file (data : list (string * day_row))
    : list (csv_file (string * day_row)) :=
  write_lines LINES_PER_FILE data.

End Activity.

Module Weight.

(** [LINES_PER_FILE] of [weight.py]. *)
Definition LINES_PER_FILE : nat := 75.

(** [write_to_file] for rows of any kind: [None] is the [IndexError]
    of [weight_data[0]] on an empty list. *)
Definition write_to_file {R} (weight_data : list R) : option (list (csv_file R)) :=
  _ ← head weight_data;
  Some (write_lines LINES_PER_FILE weight_data).

End Weight.

(** Sample days for [merge_data]: calories on two days, floors on one
    of them, steps on the first day, none on the second, and an
    activity without steps on a third day. *)
Definition sample_calories : list (string * Z) :=
  [("2020-01-02", 2100); ("2020-01-01", 2000)].

Definition sample_floors : list (string * Z) := [("2020-01-01", 7)].

Definition sample_activities : list (string * Activity.activity_day) :=
  [("2020-01-01", Activity.ActivityDay 9000 (PyFloat (65 # 10)) 0 60 0 10 300);
   ("2020-01-02", Activity.ActivityDay 0 (PyFloat (0 # 1)) 0 0 0 0 0);
   ("2020-01-03", Activity.ActivityDay 0 (PyFloat (0 # 1)) 0 0 0 0 0)].

(** * Properties *)

(** ** The resolver *)

Lemma nearer_cases ts c t :
  (Z.abs (t - ts) < Z.abs (c - ts) ∧ nearer ts c t = t) ∨
  (Z.abs (c - ts) ≤ Z.abs (t - ts) ∧ nearer ts c t = c).
Proof.
  unfold nearer. case_bool_decide; [left | right]; split; auto; lia.
Qed.

Lemma scan_nearest_cons ts t l c :
  scan_nearest ts (t :: l) c = scan_nearest ts l (nearer ts c t).
Proof. reflexivity. Qed.

(** The scan keeps the first minimizer of its start value followed by
    the list. *)
Lemma scan_first_minimizer ts l : ∀ c,
  first_minimizer ts (c :: l) (scan_nearest ts l c).
Proof.
  induction l as [|t l IH]; intros c.
  - exists 0%nat. cbn. split; [done|]. split.
    + intros [|j] y Hy; simplify_eq/=; lia.
    + intros j y Hj; lia.
  - rewrite scan_nearest_cons.
    destruct (IH (nearer ts c t)) as (i & Hi & Hmin & Hfirst).
    generalize dependent (scan_nearest ts l (nearer ts c t)). intros r Hi Hmin Hfirst.
    destruct (nearer_cases ts c t) as [[Hlt Heq] | [Hle Heq]]; rewrite Heq in *.
    + exists (S i). split; [done|].
      pose proof (Hmin 0%nat t eq_refl) as Ht.
      split.
      * intros [|j] y Hy; simplify_eq/=; try lia.
        by apply (Hmin j).
      * intros [|j] y Hj Hy; simplify_eq/=; try lia.
        apply (Hfirst j); [lia | done].
    + destruct i as [|i]; simplify_eq/=.
      * exists 0%nat. split; [done|]. split.
        -- intros [|[|j]] y Hy; simplify_eq/=; try lia.
           by apply (Hmin (S j)).
        -- intros j y Hj; lia.
      * exists (S (S i)). split; [done|].
        pose proof (Hfirst 0%nat c ltac:(lia) eq_refl) as Hc.
        split.
        -- intros [|[|j]] y Hy; simplify_eq/=; try lia.
           by apply (Hmin (S j)).
        -- intros [|[|j]] y Hj Hy; simplify_eq/=; try lia.
           apply (Hfirst (S j)); [lia | done].
Qed.

Lemma sorted_timestamps_perm data :
  sorted_timestamps data ≡ₚ loc_start_time <$> data.
Proof. apply merge_sort_Permutation. Qed.

Lemma sorted_timestamps_sorted data :
  StronglySorted Z.le (sorted_timestamps data).
Proof. apply (StronglySorted_merge_sort Z.le). Qed.

Lemma elem_of_sorted_timestamps t data :
  t ∈ sorted_timestamps data ↔ t ∈ loc_start_time <$> data.
Proof. by rewrite sorted_timestamps_perm. Qed.

(** Two elements of an ascending list are in the order of their places. *)
Lemma StronglySorted_lookup_le (l : list Z) (i j : nat) x y :
  StronglySorted Z.le l → l !! i = Some x → l !! j = Some y → (i < j)%nat → x ≤ y.
Proof.
  intros Hs. revert i j. induction Hs as [|a l Hs IH Hall]; intros i j Hi Hj Hlt.
  - done.
  - destruct i as [|i], j as [|j]; simplify_eq/=; try lia.
    + rewrite Forall_forall in Hall. apply Hall. by eapply list_elem_of_lookup_2.
    + apply (IH i j); auto; lia.
Qed.

Lemma find_nearest_time_first_minimizer ts data :
  first_minimizer ts (0 :: sorted_timestamps data) (find_nearest_time ts data).
Proof. apply scan_first_minimizer. Qed.

(** The value is the start value or one of the timestamps. *)
Lemma find_nearest_time_range ts data :
  find_nearest_time ts data = 0 ∨
  find_nearest_time ts data ∈ loc_start_time <$> data.
Proof.
  destruct (find_nearest_time_first_minimizer ts data) as ([|i] & Hi & _).
  - left. by simplify_eq/=.
  - right. apply elem_of_sorted_timestamps. by eapply list_elem_of_lookup_2.
Qed.

(** Either the start value is kept, and no timestamp is strictly
    nearer, or the value is a timestamp strictly nearer than the start
    value, and the smallest of the nearest ones. *)
Lemma find_nearest_time_cases ts data :
  let r := find_nearest_time ts data in
  (r = 0 ∧ ∀ t, t ∈ loc_start_time <$> data → Z.abs (0 - ts) ≤ Z.abs (t - ts)) ∨
  (r ∈ loc_start_time <$> data ∧ Z.abs (r - ts) < Z.abs (0 - ts) ∧
   ∀ t, t ∈ loc_start_time <$> data → Z.abs (t - ts) = Z.abs (r - ts) → r ≤ t).
Proof.
  cbn zeta.
  destruct (find_nearest_time_first_minimizer ts data) as (i & Hi & Hmin & Hfirst).
  generalize dependent (find_nearest_time ts data). intros r Hi Hmin Hfirst.
  destruct i as [|i]; simplify_eq/=.
  - left. split; [done|]. intros t Ht.
    apply elem_of_sorted_timestamps, list_elem_of_lookup_1 in Ht as [j Hj].
    by apply (Hmin (S j)).
  - right. split; [|split].
    + apply elem_of_sorted_timestamps. by eapply list_elem_of_lookup_2.
    + apply (Hfirst 0%nat); [lia | done].
    + intros t Ht Heq.
      apply elem_of_sorted_timestamps, list_elem_of_lookup_1 in Ht as [j Hj].
      destruct (Nat.lt_trichotomy j i) as [Hlt | [-> | Hgt]].
      * specialize (Hfirst (S j) t ltac:(lia) Hj). lia.
      * simplify_eq. lia.
      * eapply StronglySorted_lookup_le; eauto using sorted_timestamps_sorted.
Qed.

(** C3. For every target [ts] and every list of location entries, the
    resolver returns the first element, in a scan of the start value 0
    followed by the timestamps in ascending order, that minimises the
    absolute difference from [ts]: it is at least as near as every
    timestamp; when some timestamp is strictly nearer to [ts] than 0,
    it is a timestamp, and the smallest of the nearest ones; when none
    is, it is 0.  On a single entry it returns without error, the
    timestamp when that is strictly nearer than 0 and 0 otherwise. *)
Theorem find_nearest_time_spec (ts : Z) (data : list location_entry) :
  let r := find_nearest_time ts data in
  let candidates := loc_start_time <$> data in
  first_minimizer ts (0 :: sorted_timestamps data) r ∧
  sorted_timestamps data ≡ₚ candidates ∧
  StronglySorted Z.le (sorted_timestamps data) ∧
  (∀ t, t ∈ candidates → Z.abs (r - ts) ≤ Z.abs (t - ts)) ∧
  ((∃ t, t ∈ candidates ∧ Z.abs (t - ts) < Z.abs (0 - ts)) →
   r ∈ candidates ∧
   ∀ t, t ∈ candidates → Z.abs (t - ts) = Z.abs (r - ts) → r ≤ t) ∧
  ((∀ t, t ∈ candidates → Z.abs (0 - ts) ≤ Z.abs (t - ts)) → r = 0) ∧
  (∀ d, data = [d] →
   r = if bool_decide (Z.abs (loc_start_time d - ts) < Z.abs (0 - ts))
       then loc_start_time d else 0).
Proof.
  intros r candidates.
  pose proof (find_nearest_time_first_minimizer ts data) as Hfm.
  pose proof (find_nearest_time_cases ts data) as Hcases. cbn zeta in Hcases.
  fold r in Hfm, Hcases. fold candidates in Hcases.
  split; [done|]. split; [apply sorted_timestamps_perm|].
  split; [apply sorted_timestamps_sorted|].
  split; [|split; [|split]].
  - intros t Ht. destruct Hfm as (i & _ & Hmin & _).
    apply elem_of_sorted_timestamps, list_elem_of_lookup_1 in Ht as [j Hj].
    by apply (Hmin (S j)).
  - intros (t & Ht & Hlt).
    destruct Hcases as [[_ Hfar] | (Hin & _ & Hsmall)]; [|done].
    specialize (Hfar t Ht). lia.
  - intros Hfar. destruct Hcases as [[-> _] | (Hin & Hlt & _)]; [done|].
    specialize (Hfar r Hin). lia.
  - intros d ->. reflexivity.
Qed.

(** C4, as stated, fails: with the target 1000 and the single
    timestamp 3000, both strictly positive, the resolver returns 0,
    which is not a timestamp of the data. *)
Lemma find_nearest_time_positive_not_member :
  ¬ (∀ (ts : Z) (data : list location_entry),
       0 < ts → data ≠ [] →
       (∀ d, d ∈ data → 0 < loc_start_time d) →
       find_nearest_time ts data ∈ loc_start_time <$> data).
Proof.
  intros H.
  assert (Hin : find_nearest_time 1000 [LocationEntry 3000 (PyInt 10) (PyInt 20) None]
                ∈ loc_start_time <$> [LocationEntry 3000 (PyInt 10) (PyInt 20) None]).
  { apply H; [lia | done |].
    intros d ->%list_elem_of_singleton. cbn. lia. }
  vm_compute in Hin. apply list_elem_of_singleton in Hin. lia.
Qed.

(** C4, amended. For a strictly positive target and strictly positive
    timestamps, the resolver returns a timestamp of the data exactly
    when some timestamp is smaller than twice the target, that is,
    strictly nearer to the target than 0. *)
Theorem find_nearest_time_member (ts : Z) (data : list location_entry) :
  0 < ts →
  (∀ d, d ∈ data → 0 < loc_start_time d) →
  find_nearest_time ts data ∈ loc_start_time <$> data ↔
  ∃ d, d ∈ data ∧ loc_start_time d < 2 * ts.
Proof.
  intros Hts Hpos.
  assert (Hcand : ∀ t, t ∈ loc_start_time <$> data → 0 < t).
  { intros t (d & -> & Hd)%list_elem_of_fmap. by apply Hpos. }
  pose proof (find_nearest_time_cases ts data) as Hcases. cbn zeta in Hcases.
  split.
  - intros Hin. destruct Hcases as [[H0 _] | (Hr & Hlt & _)].
    + specialize (Hcand _ Hin). lia.
    + pose proof (Hcand _ Hr) as Hrpos.
      apply list_elem_of_fmap in Hr as (d & Hd & Hdin).
      exists d. split; [done|]. rewrite <- Hd. lia.
  - intros (d & Hd & Hlt). destruct Hcases as [[_ Hfar] | (Hr & _)]; [|done].
    assert (Hdin : loc_start_time d ∈ loc_start_time <$> data)
      by (apply list_elem_of_fmap; eauto).
    specialize (Hfar _ Hdin). specialize (Hpos d Hd). lia.
Qed.

(** ** Stored values are kept *)

Lemma keeps_refl {A} (x : option A) : keeps x x.
Proof. by intros v. Qed.

Lemma keeps_trans {A} (x y z : option A) : keeps x y → keeps y z → keeps x z.
Proof. intros Hxy Hyz v Hv. by apply Hyz, Hxy. Qed.

Lemma keeps_None {A} (y : option A) : keeps None y.
Proof. by intros v. Qed.

Lemma obs_extends_refl o : obs_extends o o.
Proof. unfold obs_extends. auto 10 using @keeps_refl. Qed.

Lemma obs_extends_trans o1 o2 o3 :
  obs_extends o1 o2 → obs_extends o2 o3 → obs_extends o1 o3.
Proof.
  unfold obs_extends. intros (?&?&?&?&?&?&?&?) (?&?&?&?&?&?&?&?).
  split; [congruence|]. eauto 15 using @keeps_trans.
Qed.

Global Instance obs_extends_reflexive : Reflexive obs_extends.
Proof. intros o. apply obs_extends_refl. Qed.

Global Instance obs_extends_transitive : Transitive obs_extends.
Proof. intros o1 o2 o3. apply obs_extends_trans. Qed.

Global Instance obs_grows_reflexive : Reflexive obs_grows.
Proof. intros o. split; [reflexivity | done]. Qed.

Global Instance obs_grows_transitive : Transitive obs_grows.
Proof.
  intros o1 o2 o3 [He1 (?&?&?)] [He2 (?&?&?)]. split; [by etrans|].
  unfold same_position. split_and!; congruence.
Qed.

Section MapRel.
Context (R : relation observation).
Implicit Types m : gmap Z observation.

Lemma map_rel_refl `{!Reflexive R} m : map_rel R m m.
Proof. intros k o Ho. eauto. Qed.

Lemma map_rel_trans `{!Transitive R} m1 m2 m3 :
  map_rel R m1 m2 → map_rel R m2 m3 → map_rel R m1 m3.
Proof.
  intros H12 H23 k o Ho.
  destruct (H12 k o Ho) as (o2 & Ho2 & He2).
  destruct (H23 k o2 Ho2) as (o3 & Ho3 & He3).
  exists o3. split; [done|]. by etrans.
Qed.

Lemma map_rel_insert_new `{!Reflexive R} m k o :
  m !! k = None → map_rel R m (<[k := o]> m).
Proof.
  intros Hk j oj Hj. exists oj. split; [|done].
  rewrite lookup_insert_ne; [done | congruence].
Qed.

Lemma map_rel_insert_ext `{!Reflexive R} m k o o' :
  m !! k = Some o → R o o' → map_rel R m (<[k := o']> m).
Proof.
  intros Hk He j oj Hj. destruct (decide (k = j)) as [-> | Hne].
  - exists o'. rewrite lookup_insert_eq. split; [done|]. congruence.
  - exists oj. rewrite lookup_insert_ne by done. auto.
Qed.

Lemma map_rel_dom m m' : map_rel R m m' → dom m ⊆ dom m'.
Proof.
  intros He k [o Ho]%elem_of_dom. destruct (He k o Ho) as (o' & Ho' & _).
  apply elem_of_dom. eauto.
Qed.
End MapRel.

Lemma map_rel_weaken (R1 R2 : relation observation) (m m' : gmap Z observation) :
  (∀ o o', R1 o o' → R2 o o') → map_rel R1 m m' → map_rel R2 m m'.
Proof. intros HR H k o Ho. destruct (H k o Ho) as (o' & ? & ?). eauto. Qed.

Lemma map_grows_extends (m m' : gmap Z observation) :
  map_rel obs_grows m m' → map_extends m m'.
Proof. apply map_rel_weaken. by intros o o' [? _]. Qed.

Global Instance distance_key_laws : FieldLaws distance_key.
Proof.
  split; [done | | done | done]. intros x o Hn.
  unfold obs_extends; cbn in *. rewrite Hn.
  auto 10 using @keeps_refl, @keeps_None.
Qed.

Global Instance cadence_key_laws : FieldLaws cadence_key.
Proof.
  split; [done | | done | done]. intros x o Hn.
  unfold obs_extends; cbn in *. rewrite Hn.
  auto 10 using @keeps_refl, @keeps_None.
Qed.

Global Instance heart_rate_key_laws : FieldLaws heart_rate_key.
Proof.
  split; [done | | done | done]. intros x o Hn.
  unfold obs_extends; cbn in *. rewrite Hn.
  auto 10 using @keeps_refl, @keeps_None.
Qed.

Global Instance speed_key_laws : FieldLaws speed_key.
Proof.
  split; [done | | done | done]. intros x o Hn.
  unfold obs_extends; cbn in *. rewrite Hn.
  auto 10 using @keeps_refl, @keeps_None.
Qed.

(** *** One key of one live entry *)

Section StoreField.
Context {A : Type} (f : field A) `{!FieldLaws f}.
Implicit Types (m : gmap Z observation) (v : option A).

(** The three cases of a write. *)
Lemma store_field_cases ts t v m :
  (store_field f ts t v m = m ∧
   (opt_truthy (f_truthy f) v = false ∨
    ∃ o, m !! ts = Some o ∧ is_Some (f_get f o))) ∨
  (∃ x, v = Some x ∧ f_truthy f x = true ∧ m !! ts = None ∧
        store_field f ts t v m = <[ts := f_set f x (bare t)]> m) ∨
  (∃ x o, v = Some x ∧ f_truthy f x = true ∧ m !! ts = Some o ∧
          f_get f o = None ∧
          store_field f ts t v m = <[ts := f_set f x o]> m).
Proof.
  unfold store_field. destruct v as [x|]; cbn; [|by auto].
  destruct (f_truthy f x) eqn:Ht; [|by auto].
  destruct (m !! ts) as [o|] eqn:Hm.
  - rewrite Hm. destruct (f_get f o) eqn:Hg.
    + left. split; [done|]. right. exists o. rewrite Hg. eauto.
    + right. right. exists x, o. auto.
  - rewrite lookup_insert_eq, get_set. right. left. exists x. auto.
Qed.

(** A key that holds the field is left as it is. *)
Lemma store_field_present ts t v m o :
  m !! ts = Some o → is_Some (f_get f o) → store_field f ts t v m = m.
Proof.
  intros Hm [w Hw].
  destruct (store_field_cases ts t v m)
    as [[? _] | [(x & _ & _ & Hn & _) | (x & o' & _ & _ & Hm' & Hg & _)]];
    [done | congruence | congruence].
Qed.

Lemma store_field_grows ts t v m : map_rel obs_grows m (store_field f ts t v m).
Proof.
  destruct (store_field_cases ts t v m)
    as [[-> _] | [(x & _ & _ & Hn & ->) | (x & o & _ & _ & Hm & Hg & ->)]].
  - apply (map_rel_refl _).
  - by apply (map_rel_insert_new _).
  - eapply (map_rel_insert_ext _); [done|].
    split; [by apply set_new | apply set_position].
Qed.

Lemma store_field_lookup_ne ts t v m k :
  k ≠ ts → store_field f ts t v m !! k = m !! k.
Proof.
  intros Hne.
  destruct (store_field_cases ts t v m)
    as [[-> _] | [(x & _ & _ & _ & ->) | (x & o & _ & _ & _ & _ & ->)]];
    [done | | ]; by rewrite lookup_insert_ne.
Qed.

Lemma store_field_dom ts t v m :
  dom (store_field f ts t v m) ⊆ dom m ∪ {[ts]}.
Proof.
  destruct (store_field_cases ts t v m)
    as [[-> _] | [(x & _ & _ & _ & ->) | (x & o & _ & _ & _ & _ & ->)]];
    [| rewrite dom_insert_L | rewrite dom_insert_L]; set_solver.
Qed.

(** A true value makes its timestamp a key. *)
Lemma store_field_key ts t v m :
  opt_truthy (f_truthy f) v = true → ts ∈ dom (store_field f ts t v m).
Proof.
  intros Hv.
  destruct (store_field_cases ts t v m)
    as [[Heq Hwhy] | [(x & _ & _ & _ & Heq) | (x & o & _ & _ & _ & _ & Heq)]];
    rewrite Heq.
  - destruct Hwhy as [Hf | (o & Hm & _)]; [congruence|].
    apply elem_of_dom. eauto.
  - rewrite dom_insert_L. set_solver.
  - rewrite dom_insert_L. set_solver.
Qed.

(** A property of the values that every write of this field keeps. *)
Lemma store_field_forall (P : observation → Prop) ts t v m :
  (∀ x, v = Some x → f_truthy f x = true → P (f_set f x (bare t))) →
  (∀ x o, v = Some x → f_truthy f x = true → P o → P (f_set f x o)) →
  map_Forall (λ _, P) m → map_Forall (λ _, P) (store_field f ts t v m).
Proof.
  intros Hnew Hset Hall.
  destruct (store_field_cases ts t v m)
    as [[-> _] | [(x & Hv & Ht & _ & ->) | (x & o & Hv & Ht & Hm & _ & ->)]].
  - done.
  - apply map_Forall_insert_2; eauto.
  - apply map_Forall_insert_2; [|done]. eapply Hset; eauto.
Qed.
End StoreField.

(** ** The two loops of the merge *)

Section Merge.
Variable utc_time_string : Z → option string.
Implicit Types (m : gmap Z observation) (loc : list location_entry)
         (live : list live_entry).

(** *** The loop over the location data *)

Lemma location_step_cases m entry m' :
  location_step utc_time_string m entry = Some m' →
  (is_Some (m !! loc_start_time entry) ∧ m' = m) ∨
  (∃ t, utc_time_string (loc_start_time entry) = Some t ∧
        m !! loc_start_time entry = None ∧
        m' = <[loc_start_time entry :=
                 Observation t (Some (loc_latitude entry)) (Some (loc_longitude entry))
                             (loc_altitude entry) None None None None]> m).
Proof.
  unfold location_step. intros H.
  destruct (utc_time_string (loc_start_time entry)) as [t|] eqn:Ht; [|done].
  cbn in H. destruct (m !! loc_start_time entry) eqn:Hm; simplify_eq.
  - left. eauto.
  - right. eauto.
Qed.

Lemma location_step_extends m entry m' :
  location_step utc_time_string m entry = Some m' → map_extends m m'.
Proof.
  intros [[_ ->] | (t & _ & Hn & ->)]%location_step_cases.
  - apply (map_rel_refl _).
  - by apply (map_rel_insert_new _).
Qed.

Lemma location_step_dom m entry m' :
  location_step utc_time_string m entry = Some m' →
  dom m' = dom m ∪ {[loc_start_time entry]}.
Proof.
  intros [[Hs ->] | (t & _ & Hn & ->)]%location_step_cases.
  - apply elem_of_dom in Hs. set_solver.
  - rewrite dom_insert_L. set_solver.
Qed.

Lemma location_loop_app m loc1 loc2 :
  location_loop utc_time_string m (loc1 ++ loc2) =
  location_loop utc_time_string m loc1 ≫= λ m1, location_loop utc_time_string m1 loc2.
Proof.
  revert m. induction loc1 as [|e loc1 IH]; intros m; [done|].
  cbn. destruct (location_step utc_time_string m e) as [m1|]; [|done].
  cbn. apply IH.
Qed.

Lemma location_loop_extends loc : ∀ m m',
  location_loop utc_time_string m loc = Some m' → map_extends m m'.
Proof.
  induction loc as [|e loc IH]; intros m m' H; simplify_eq/=.
  - apply (map_rel_refl _).
  - destruct (location_step utc_time_string m e) as [m1|] eqn:Hs; simplify_eq/=.
    eapply (map_rel_trans _); [by eapply location_step_extends|]. by apply IH.
Qed.

Lemma location_loop_dom loc : ∀ m m',
  location_loop utc_time_string m loc = Some m' →
  dom m' = dom m ∪ list_to_set (loc_start_time <$> loc).
Proof.
  induction loc as [|e loc IH]; intros m m' H; simplify_eq/=.
  - set_solver.
  - destruct (location_step utc_time_string m e) as [m1|] eqn:Hs; simplify_eq/=.
    rewrite (IH _ _ H), (location_step_dom _ _ _ Hs). set_solver.
Qed.

(** A property of the values that holds of every value the loop
    inserts holds of every value in the end. *)
Lemma location_loop_forall (P : observation → Prop) loc : ∀ m m',
  (∀ t e, e ∈ loc →
          P (Observation t (Some (loc_latitude e)) (Some (loc_longitude e))
                         (loc_altitude e) None None None None)) →
  map_Forall (λ _, P) m →
  location_loop utc_time_string m loc = Some m' →
  map_Forall (λ _, P) m'.
Proof.
  induction loc as [|e loc IH]; intros m m' HP Hm H; simplify_eq/=; [done|].
  destruct (location_step utc_time_string m e) as [m1|] eqn:Hs; simplify_eq/=.
  eapply (IH m1); [| |done].
  - intros t e' He'. apply HP. by right.
  - apply location_step_cases in Hs as [[_ ->] | (t & _ & _ & ->)]; [done|].
    apply map_Forall_insert_2; [|done]. apply HP. by left.
Qed.

(** A key, once there, is not touched by the loop. *)
Lemma location_loop_keep loc : ∀ m m' k o,
  location_loop utc_time_string m loc = Some m' →
  m !! k = Some o → m' !! k = Some o.
Proof.
  induction loc as [|e loc IH]; intros m m' k o H Hk; simplify_eq/=; [done|].
  destruct (location_step utc_time_string m e) as [m1|] eqn:Hs; simplify_eq/=.
  eapply IH; [done|].
  apply location_step_cases in Hs as [[_ ->] | (t & _ & Hn & ->)]; [done|].
  rewrite lookup_insert_ne; [done | congruence].
Qed.

(** The first location entry of a timestamp decides the value stored
    under it. *)
Lemma location_loop_first loc : ∀ m m' (i : nat) e,
  location_loop utc_time_string m loc = Some m' →
  loc !! i = Some e →
  m !! loc_start_time e = None →
  (∀ (j : nat) e', (j < i)%nat → loc !! j = Some e' →
                   loc_start_time e' ≠ loc_start_time e) →
  ∃ t, utc_time_string (loc_start_time e) = Some t ∧
       m' !! loc_start_time e =
         Some (Observation t (Some (loc_latitude e)) (Some (loc_longitude e))
                           (loc_altitude e) None None None None).
Proof.
  induction loc as [|e0 loc IH]; intros m m' i e H Hi Hm Hfirst; [done|].
  cbn in H.
  destruct (location_step utc_time_string m e0) as [m1|] eqn:Hs; simplify_eq/=.
  destruct i as [|i]; simplify_eq/=.
  - apply location_step_cases in Hs as [[[o Ho] _] | (t & Ht & _ & ->)];
      [congruence|].
    exists t. split; [done|].
    eapply location_loop_keep; [done|]. apply lookup_insert_eq.
  - eapply (IH m1 m' i); [done | done | |].
    + pose proof (Hfirst 0%nat e0 ltac:(lia) eq_refl) as Hne.
      apply location_step_cases in Hs as [[_ ->] | (t & _ & _ & ->)]; [done|].
      by rewrite lookup_insert_ne.
    + intros j e' Hj He'. apply (Hfirst (S j)); [lia | done].
Qed.

(** *** The loop over the live data *)

Lemma live_step_inv loc m entry m' entry' :
  live_step utc_time_string loc m entry = Some (m', entry') →
  let ts := effective_time loc m (live_start_time entry) in
  entry' = rewritten ts entry ∧
  is_Some (utc_time_string ts) ∧
  map_rel obs_grows m m' ∧
  dom m' ⊆ dom m ∪ {[ts]} ∧
  (has_sensor_data entry = true → ts ∈ dom m') ∧
  (map_Forall (λ _, hr_stored_ok) m → map_Forall (λ _, hr_stored_ok) m').
Proof.
  unfold live_step. cbn zeta. cbn [live_distance live_cadence live_speed].
  set (ts := effective_time loc m (live_start_time entry)). intros H.
  destruct (utc_time_string ts) as [t|] eqn:Ht; [|done].
  cbn in H. injection H as <- <-.
  split; [done|]. split; [eauto|].
  split; [|split; [|split]].
  - repeat (eapply (map_rel_trans _); [|apply store_field_grows; apply _]).
    apply (map_rel_refl _).
  - match goal with
    | |- dom (store_field ?f4 _ _ ?v4 (store_field ?f3 _ _ ?v3
               (store_field ?f2 _ _ ?v2 (store_field ?f1 _ _ ?v1 _)))) ⊆ _ =>
        pose proof (store_field_dom f1 ts t v1 m) as H1;
        pose proof (store_field_dom f2 ts t v2 (store_field f1 ts t v1 m)) as H2;
        pose proof (store_field_dom f3 ts t v3
                      (store_field f2 ts t v2 (store_field f1 ts t v1 m))) as H3;
        pose proof (store_field_dom f4 ts t v4
                      (store_field f3 ts t v3
                         (store_field f2 ts t v2 (store_field f1 ts t v1 m)))) as H4
    end.
    set_solver.
  - unfold has_sensor_data. rewrite !orb_true_iff.
    intros [[[Hd | Hc] | Hh] | Hs].
    + do 3 (eapply map_rel_dom; [apply store_field_grows; apply _|]).
      by apply (store_field_key distance_key).
    + do 2 (eapply map_rel_dom; [apply store_field_grows; apply _|]).
      by apply (store_field_key cadence_key).
    + eapply map_rel_dom; [apply store_field_grows; apply _|].
      by apply (store_field_key heart_rate_key).
    + by apply (store_field_key speed_key).
  - intros Hok.
    repeat (apply store_field_forall; [apply _ | | |]); try done.
    + intros x _ Hx. unfold hr_stored_ok; cbn. intros [= ->]. done.
    + intros x o _ Hx _. unfold hr_stored_ok; cbn. intros [= ->]. done.
Qed.

Lemma live_loop_app loc live1 : ∀ m live2,
  live_loop utc_time_string loc m (live1 ++ live2) =
  '(m1, r1) ← live_loop utc_time_string loc m live1;
  '(m2, r2) ← live_loop utc_time_string loc m1 live2;
  Some (m2, r1 ++ r2).
Proof.
  induction live1 as [|e live1 IH]; intros m live2; cbn.
  - by destruct (live_loop utc_time_string loc m live2) as [[? ?]|].
  - destruct (live_step utc_time_string loc m e) as [[m1 e1]|]; [|done].
    cbn. rewrite IH.
    destruct (live_loop utc_time_string loc m1 live1) as [[m2 r1]|]; [|done].
    cbn. by destruct (live_loop utc_time_string loc m2 live2) as [[? ?]|].
Qed.

(** What the loop keeps true, one entry after the other. *)
Lemma live_loop_ind (I : gmap Z observation → Prop) loc live :
  (∀ m entry m' entry', I m →
     live_step utc_time_string loc m entry = Some (m', entry') → I m') →
  ∀ m m' live',
    live_loop utc_time_string loc m live = Some (m', live') → I m → I m'.
Proof.
  intros Hstep. induction live as [|e live IH]; intros m m' live' H Hm;
    simplify_eq/=; [done|].
  destruct (live_step utc_time_string loc m e) as [[m1 e1]|] eqn:Hs; simplify_eq/=.
  destruct (live_loop utc_time_string loc m1 live) as [[m2 r]|] eqn:Hl; simplify_eq/=.
  eapply IH; eauto.
Qed.

Lemma live_loop_grows loc live m m' live' :
  live_loop utc_time_string loc m live = Some (m', live') → map_rel obs_grows m m'.
Proof.
  intros H. eapply (live_loop_ind (λ mx, map_rel obs_grows m mx)); [|done|].
  - intros m1 e m2 e2 Hm1 Hs. eapply (map_rel_trans _); [done|].
    by apply live_step_inv in Hs as (_ & _ & ? & _).
  - apply (map_rel_refl _).
Qed.

Lemma live_loop_hr_ok loc live m m' live' :
  live_loop utc_time_string loc m live = Some (m', live') →
  map_Forall (λ _, hr_stored_ok) m → map_Forall (λ _, hr_stored_ok) m'.
Proof.
  intros H. eapply (live_loop_ind _); [|done].
  intros m1 e m2 e2 Hm1 Hs.
  apply live_step_inv in Hs as (_ & _ & _ & _ & _ & Hok). auto.
Qed.

(** With location data, the keys stay among its timestamps and 0. *)
Lemma effective_time_range loc m ts (S : gset Z) :
  loc ≠ [] → dom m ⊆ S →
  list_to_set (loc_start_time <$> loc) ⊆ S → 0 ∈ S →
  effective_time loc m ts ∈ S.
Proof.
  intros Hloc Hdom Hts H0. unfold effective_time.
  case_bool_decide as Hm; cbn.
  - rewrite bool_decide_eq_true_2 by done.
    destruct (find_nearest_time_range ts loc) as [-> | Hin]; [done|].
    apply Hts. by apply elem_of_list_to_set.
  - apply Hdom, elem_of_dom. by apply not_eq_None_Some.
Qed.

Lemma live_loop_keys loc live m m' live' (S : gset Z) :
  loc ≠ [] →
  list_to_set (loc_start_time <$> loc) ⊆ S → 0 ∈ S →
  live_loop utc_time_string loc m live = Some (m', live') →
  dom m ⊆ S → dom m' ⊆ S.
Proof.
  intros Hloc Hts H0 H. eapply (live_loop_ind (λ mx, dom mx ⊆ S)); [|done].
  intros m1 e m2 e2 Hm1 Hs.
  apply live_step_inv in Hs as (_ & _ & _ & Hdom & _).
  pose proof (effective_time_range loc m1 (live_start_time e) S Hloc Hm1 Hts H0).
  set_solver.
Qed.
End Merge.

(** ** Sorting and the heart rate of the items *)

Global Instance key_le_transitive : Transitive key_le.
Proof. intros p q r. unfold key_le. lia. Qed.

Global Instance key_le_total : Total key_le.
Proof. intros p q. unfold key_le. lia. Qed.

Lemma elem_of_sorted_items (m : gmap Z observation) k o :
  (k, o) ∈ sorted_items m ↔ m !! k = Some o.
Proof.
  unfold sorted_items. rewrite merge_sort_Permutation.
  apply elem_of_map_to_list.
Qed.

Lemma StronglySorted_le_lt (l : list Z) :
  StronglySorted Z.le l → NoDup l → StronglySorted Z.lt l.
Proof.
  induction 1 as [|x l Hs IH Hall]; intros Hnd; [constructor|].
  apply NoDup_cons in Hnd as [Hx Hnd]. constructor; [auto|].
  rewrite Forall_forall in Hall |- *. intros y Hy.
  specialize (Hall y Hy). assert (x ≠ y) by (intros ->; done). lia.
Qed.

(** The keys of the sorted dictionary ascend strictly. *)
Lemma sorted_items_keys (m : gmap Z observation) :
  StronglySorted Z.lt (sorted_items m).*1.
Proof.
  apply StronglySorted_le_lt.
  - apply (StronglySorted_fmap fst key_le Z.le); [done|].
    apply (StronglySorted_merge_sort key_le).
  - unfold sorted_items. rewrite merge_sort_Permutation.
    apply NoDup_fst_map_to_list.
Qed.

Lemma fill_heart_rate_fst items : ∀ hr,
  (fill_heart_rate hr items).*1 = items.*1.
Proof.
  induction items as [|[d o] items IH]; intros hr; [done|]. cbn.
  destruct (heart_rate o) as [h|]; [destruct (int_truthy h)|]; cbn; by rewrite IH.
Qed.

Lemma set_heart_rate_grows h o :
  heart_rate o = None → obs_grows o (set_heart_rate h o).
Proof.
  intros Hn. split; [|done]. apply (set_new (f := heart_rate_key)), Hn.
Qed.

(** The last loop keeps the keys and every stored value, and leaves a
    heart rate in every item. *)
Lemma fill_heart_rate_Forall2 items : ∀ hr,
  Forall (λ p, hr_stored_ok p.2) items →
  Forall2 (λ p q, q.1 = p.1 ∧ obs_grows p.2 q.2 ∧ is_Some (heart_rate q.2))
          items (fill_heart_rate hr items).
Proof.
  induction items as [|[d o] items IH]; intros hr Hok; [constructor|].
  apply Forall_cons in Hok as [Ho Hok]. cbn in Ho |- *.
  destruct (heart_rate o) as [h|] eqn:Hh.
  - destruct (int_truthy h) eqn:Ht.
    + constructor; [|by apply IH]. cbn. rewrite Hh. split_and!; eauto.
      reflexivity.
    + unfold int_truthy in Ht. apply negb_false_iff, Z.eqb_eq in Ht. subst h.
      by destruct Ho.
  - constructor; [|by apply IH]. cbn. split_and!; eauto.
    by apply set_heart_rate_grows.
Qed.

Lemma own_reading_cons p items i h :
  own_reading (p :: items) (S i) h ↔ own_reading items i h.
Proof. done. Qed.

Lemma no_reading_cons p items i :
  no_reading (p :: items) (S i) ↔ no_reading items i.
Proof. done. Qed.

(** Behind a first item that leaves the running value at [hr'], the
    readings of the rest are the readings of the whole list. *)
Lemma last_reading_from_cons hr hr' d o items i h :
  (heart_rate o = Some hr' ∨ (heart_rate o = None ∧ hr' = hr)) →
  last_reading_from hr' items i h →
  last_reading_from hr ((d, o) :: items) (S i) h.
Proof.
  intros Hhead [Hown | [Hnone [(j & Hj & Hown & Hbetween) | [-> Hall]]]].
  - left. by apply own_reading_cons.
  - right. split; [by apply no_reading_cons|]. left.
    exists (S j). split; [lia|]. split; [by apply own_reading_cons|].
    intros [|j'] Hj'; [lia|]. apply no_reading_cons, Hbetween. lia.
  - right. split; [by apply no_reading_cons|].
    destruct Hhead as [Hsome | [Hnone' ->]].
    + left. exists 0%nat. split; [lia|]. split; [by exists d, o|].
      intros [|j'] Hj'; [lia|]. apply no_reading_cons, Hall. lia.
    + right. split; [done|]. intros [|j] Hj; [by exists d, o|].
      apply no_reading_cons, Hall. lia.
Qed.

(** The heart rate the last loop leaves in the item at place [i]. *)
Lemma fill_heart_rate_reading items : ∀ hr (i : nat) k o',
  Forall (λ p, hr_stored_ok p.2) items →
  fill_heart_rate hr items !! i = Some (k, o') →
  ∃ h, heart_rate o' = Some h ∧ last_reading_from hr items i h.
Proof.
  induction items as [|[d o] items IH]; intros hr i k o' Hok Hi; [done|].
  apply Forall_cons in Hok as [Ho Hok]. cbn in Ho, Hi.
  destruct (heart_rate o) as [h0|] eqn:Hh.
  - destruct (int_truthy h0) eqn:Ht.
    + destruct i as [|i]; simplify_eq/=.
      * exists h0. split; [done|]. left. by exists k, o'.
      * destruct (IH h0 i k o' Hok Hi) as (h & Hh' & Hlast).
        exists h. split; [done|]. eapply last_reading_from_cons; eauto.
    + unfold int_truthy in Ht. apply negb_false_iff, Z.eqb_eq in Ht. subst h0.
      by destruct Ho.
  - destruct i as [|i]; simplify_eq/=.
    + exists hr. split; [done|]. right. split; [by exists k, o|].
      right. split; [done|]. intros j Hj; lia.
    + destruct (IH hr i k o' Hok Hi) as (h & Hh' & Hlast).
      exists h. split; [done|]. eapply last_reading_from_cons; eauto.
Qed.

Lemma elem_of_sorted_keys (m : gmap Z observation) k :
  k ∈ (sorted_items m).*1 ↔ k ∈ dom m.
Proof.
  rewrite list_elem_of_fmap, elem_of_dom. split.
  - intros ([k' o] & -> & Hin). apply elem_of_sorted_items in Hin. eauto.
  - intros [o Ho]. exists (k, o). split; [done|]. by apply elem_of_sorted_items.
Qed.

Lemma sorted_items_ok (m : gmap Z observation) :
  map_Forall (λ _, hr_stored_ok) m →
  Forall (λ p, hr_stored_ok p.2) (sorted_items m).
Proof.
  intros Hok. apply Forall_forall. intros [k o] Hin.
  apply elem_of_sorted_items in Hin. by apply (Hok k).
Qed.

(** Every value of the dictionary is, grown, in the returned items. *)
Lemma fill_sorted_items_grows (m : gmap Z observation) hr k o :
  map_Forall (λ _, hr_stored_ok) m →
  m !! k = Some o →
  ∃ o', (k, o') ∈ fill_heart_rate hr (sorted_items m) ∧ obs_grows o o'.
Proof.
  intros Hok Hk.
  apply elem_of_sorted_items, list_elem_of_lookup_1 in Hk as [i Hi].
  pose proof (fill_heart_rate_Forall2 _ hr (sorted_items_ok m Hok)) as HF.
  destruct (Forall2_lookup_l _ _ _ _ _ HF Hi) as ([k' o'] & Hi' & Hk' & Hg & _).
  cbn in Hk', Hg. subst k'. exists o'. split; [|done].
  by eapply list_elem_of_lookup_2.
Qed.

Lemma find_nearest_time_zero data : find_nearest_time 0 data = 0.
Proof.
  destruct (find_nearest_time_cases 0 data) as [[? _] | (_ & Hlt & _)]; [done|].
  cbn zeta in Hlt. lia.
Qed.

Section MergeTheorems.
Variable utc_time_string : Z → option string.
Implicit Types (m : gmap Z observation) (loc : list location_entry)
         (live : list live_entry).

Lemma merge_unsorted_inv loc live m live' :
  merge_unsorted utc_time_string loc live = Some (m, live') →
  ∃ m0, location_loop utc_time_string ∅ loc = Some m0 ∧
        live_loop utc_time_string loc m0 live = Some (m, live').
Proof.
  unfold merge_unsorted. intros H.
  destruct (location_loop utc_time_string ∅ loc) as [m0|]; [|done]. eauto.
Qed.

Lemma merge_inv loc live out live' :
  merge_location_and_live_data utc_time_string loc live = Some (out, live') →
  ∃ m, merge_unsorted utc_time_string loc live = Some (m, live') ∧
       out = fill_heart_rate 0 (sorted_items m).
Proof.
  unfold merge_location_and_live_data. intros H.
  destruct (merge_unsorted utc_time_string loc live) as [[m l]|]; simplify_eq/=.
  eauto.
Qed.

Lemma location_loop_hr_ok loc m0 :
  location_loop utc_time_string ∅ loc = Some m0 →
  map_Forall (λ _, hr_stored_ok) m0.
Proof.
  intros H. eapply (location_loop_forall _ hr_stored_ok); [| |done].
  - done.
  - apply map_Forall_empty.
Qed.

Lemma merge_unsorted_hr_ok loc live m live' :
  merge_unsorted utc_time_string loc live = Some (m, live') →
  map_Forall (λ _, hr_stored_ok) m.
Proof.
  intros (m0 & H0 & H1)%merge_unsorted_inv.
  eapply live_loop_hr_ok; [done|]. by eapply location_loop_hr_ok.
Qed.

(** Every heart rate the loops store is the integer heart rate of a
    live entry. *)
Lemma live_loop_hr_source loc (Q : Z → Prop) live : ∀ m m' live',
  (∀ e h, e ∈ live → py_int <$> live_heart_rate e = Some h → Q h) →
  live_loop utc_time_string loc m live = Some (m', live') →
  map_Forall (λ _ o, ∀ h, heart_rate o = Some h → Q h) m →
  map_Forall (λ _ o, ∀ h, heart_rate o = Some h → Q h) m'.
Proof.
  induction live as [|e live IH]; intros m m' live' HQ H Hm; simplify_eq/=; [done|].
  destruct (live_step utc_time_string loc m e) as [[m1 e1]|] eqn:Hs; simplify_eq/=.
  destruct (live_loop utc_time_string loc m1 live) as [[m2 r]|] eqn:Hl; simplify_eq/=.
  eapply IH; [| done |].
  - intros e' h He'. apply HQ. by right.
  - clear IH Hl. unfold live_step in Hs. cbn zeta in Hs.
    destruct (utc_time_string _) as [t|]; simplify_eq/=.
    repeat (apply store_field_forall; [apply _ | | |]); try done.
    + intros x Hx _ h [= <-]. eapply HQ; [by left | done].
    + intros x o Hx _ _ h [= <-]. eapply HQ; [by left | done].
Qed.

(** C2. After the merge, the keys of the returned items ascend, and
    every item holds a heart rate: its own reading if the item had one
    before the last loop, the reading of the nearest earlier item that
    had one otherwise, and 0 when no earlier item had one.  The readings
    are the integer heart rates of the live entries, none of them 0. *)
Theorem merged_heart_rate_forward_filled loc live out live' :
  merge_location_and_live_data utc_time_string loc live = Some (out, live') →
  ∃ m, merge_unsorted utc_time_string loc live = Some (m, live') ∧
       let unfilled := sorted_items m in
       out.*1 = unfilled.*1 ∧
       StronglySorted Z.lt out.*1 ∧
       (∀ k o, (k, o) ∈ unfilled ↔ m !! k = Some o) ∧
       (∀ k o h, (k, o) ∈ unfilled → heart_rate o = Some h →
                 h ≠ 0 ∧ ∃ e, e ∈ live ∧ py_int <$> live_heart_rate e = Some h) ∧
       (∀ (i : nat) k o, out !! i = Some (k, o) →
                         ∃ h, heart_rate o = Some h ∧ last_reading unfilled i h).
Proof.
  intros (m & Hm & ->)%merge_inv. exists m. split; [done|]. cbn zeta.
  pose proof (merge_unsorted_hr_ok _ _ _ _ Hm) as Hok.
  rewrite fill_heart_rate_fst.
  split; [done|]. split; [apply sorted_items_keys|].
  split; [apply elem_of_sorted_items|]. split.
  - intros k o h Hin%elem_of_sorted_items Hh. split.
    + intros ->. by apply (Hok k o Hin).
    + apply merge_unsorted_inv in Hm as (m0 & H0 & H1).
      eapply (live_loop_hr_source loc
                (λ h, ∃ e, e ∈ live ∧ py_int <$> live_heart_rate e = Some h));
        [| exact H1 | | exact Hin | exact Hh].
      * intros e h' He Hh'. eauto.
      * eapply (location_loop_forall _ (λ o, ∀ h, heart_rate o = Some h → _));
          [| |exact H0]; [done|apply map_Forall_empty].
  - intros i k o Hi. eapply fill_heart_rate_reading; [|done].
    by apply sorted_items_ok.
Qed.

(** *** Without location data *)

Lemma effective_time_no_location m ts : effective_time [] m ts = ts.
Proof.
  unfold effective_time. rewrite (bool_decide_eq_false_2 ([] ≠ [])) by auto.
  by rewrite andb_false_r.
Qed.

Lemma live_loop_no_location live : ∀ m m' live',
  live_loop utc_time_string [] m live = Some (m', live') →
  live' = (λ e, rewritten (live_start_time e) e) <$> live ∧
  dom m' ⊆ dom m ∪ list_to_set (live_start_time <$> live) ∧
  (∀ e, e ∈ live → has_sensor_data e = true → live_start_time e ∈ dom m').
Proof.
  induction live as [|e live IH]; intros m m' live' H; simplify_eq/=.
  - split; [done|]. split; [set_solver|]. intros e He. by apply elem_of_nil in He.
  - destruct (live_step utc_time_string [] m e) as [[m1 e1]|] eqn:Hs; simplify_eq/=.
    destruct (live_loop utc_time_string [] m1 live) as [[m2 r]|] eqn:Hl; simplify_eq/=.
    destruct (IH _ _ _ Hl) as (-> & Hdom & Hkeys).
    apply live_step_inv in Hs as (-> & _ & _ & Hdom1 & Hkey1 & _).
    rewrite effective_time_no_location in *.
    split; [done|]. split; [set_solver|].
    intros e' [-> | He']%elem_of_cons Hdata; [|by auto].
    pose proof (map_rel_dom _ _ _ (live_loop_grows _ _ _ _ _ _ Hl)).
    set_solver.
Qed.

(** C7. Without location data no timestamp is shifted: the live
    entries keep their timestamps, the timestamp of every live entry
    with a key to store (one whose value is true, the heart rate being
    an integer by then) is a key of the returned items, and every key
    of the returned items is the timestamp of a live entry. *)
Theorem no_location_no_snapping live out live' :
  merge_location_and_live_data utc_time_string [] live = Some (out, live') →
  live_start_time <$> live' = live_start_time <$> live ∧
  (∀ e, e ∈ live → has_sensor_data e = true → live_start_time e ∈ out.*1) ∧
  (∀ k, k ∈ out.*1 → k ∈ live_start_time <$> live).
Proof.
  intros (m & Hm & ->)%merge_inv.
  apply merge_unsorted_inv in Hm as (m0 & H0 & H1). simplify_eq/=.
  apply live_loop_no_location in H1 as (-> & Hdom & Hkeys).
  rewrite fill_heart_rate_fst. split; [|split].
  - rewrite <- list_fmap_compose. by apply list_fmap_ext.
  - intros e He Hdata. apply elem_of_sorted_keys. auto.
  - intros k Hk%elem_of_sorted_keys. apply Hdom in Hk.
    rewrite dom_empty_L in Hk. set_solver.
Qed.

(** *** With location data *)

(** C10. With location data, every key of the returned items is the
    timestamp of a location entry or 0, the start value of the
    resolver. *)
Theorem merged_keys_positional loc live out live' :
  loc ≠ [] →
  merge_location_and_live_data utc_time_string loc live = Some (out, live') →
  ∀ k, k ∈ out.*1 → k ∈ loc_start_time <$> loc ∨ k = 0.
Proof.
  intros Hloc (m & Hm & ->)%merge_inv k Hk.
  rewrite fill_heart_rate_fst in Hk. apply elem_of_sorted_keys in Hk.
  apply merge_unsorted_inv in Hm as (m0 & H0 & H1).
  apply location_loop_dom in H0. rewrite dom_empty_L in H0.
  assert (Hsub : dom m ⊆ list_to_set (loc_start_time <$> loc) ∪ {[0]}).
  { eapply live_loop_keys; [done | | | exact H1 |]; set_solver. }
  apply Hsub in Hk. set_solver.
Qed.

(** *** What the merge writes to the live entries *)

Lemma effective_time_snapped loc m ts :
  loc ≠ [] →
  list_to_set (loc_start_time <$> loc) ⊆ dom m →
  dom m ⊆ list_to_set (loc_start_time <$> loc) ∪ {[0]} →
  effective_time loc m ts = snapped_time loc ts.
Proof.
  intros Hloc Hlow Hup. unfold effective_time, snapped_time.
  rewrite (bool_decide_eq_true_2 (loc ≠ [])), andb_true_r by done.
  case_bool_decide as Hm; case_bool_decide as Hs; try done.
  - destruct Hs as [? | Hin]; [done|].
    apply not_elem_of_dom in Hm. set_solver.
  - assert (Hd : ts ∈ dom m) by (apply elem_of_dom; by apply not_eq_None_Some).
    apply Hup in Hd. apply elem_of_union in Hd as [Hd | ->%elem_of_singleton].
    + destruct Hs. right. by apply elem_of_list_to_set in Hd.
    + by rewrite find_nearest_time_zero.
Qed.

Lemma live_loop_snapped loc live : ∀ m m' live',
  loc ≠ [] →
  list_to_set (loc_start_time <$> loc) ⊆ dom m →
  dom m ⊆ list_to_set (loc_start_time <$> loc) ∪ {[0]} →
  live_loop utc_time_string loc m live = Some (m', live') →
  live' = (λ e, rewritten (snapped_time loc (live_start_time e)) e) <$> live.
Proof.
  induction live as [|e live IH]; intros m m' live' Hloc Hlow Hup H;
    simplify_eq/=; [done|].
  destruct (live_step utc_time_string loc m e) as [[m1 e1]|] eqn:Hs; simplify_eq/=.
  destruct (live_loop utc_time_string loc m1 live) as [[m2 r]|] eqn:Hl; simplify_eq/=.
  apply live_step_inv in Hs as (-> & _ & Hgrow & Hdom & _).
  apply map_rel_dom in Hgrow.
  pose proof (effective_time_range loc m (live_start_time e)
                (list_to_set (loc_start_time <$> loc) ∪ {[0]}) Hloc Hup) as Hin.
  rewrite (effective_time_snapped loc m) in * by done.
  f_equal. eapply (IH m1); [done | | | done]; set_solver.
Qed.

(** C9, as stated, fails: merging the live entry of timestamp 1400 and
    heart rate 120 with location entries at 1000 and 2000 leaves the
    live entry with the timestamp 1000. *)
Lemma merge_changes_live_data :
  ¬ (∀ (clock : Z → option string) loc live out live',
       merge_location_and_live_data clock loc live = Some (out, live') →
       live' = live).
Proof.
  intros H.
  specialize (H sample_clock sample_locations sample_live).
  assert (Hrun : ∃ out, merge_location_and_live_data sample_clock sample_locations
                          sample_live
                        = Some (out, [LiveEntry 1000 None None (Some (PyInt 120)) None])).
  { eexists. vm_compute. reflexivity. }
  destruct Hrun as [out Hrun]. specialize (H _ _ Hrun). discriminate H.
Qed.

(** C9, amended. The returned items are a function of the two lists,
    and the location data is only read; the live entries are written
    to: the merge leaves each of them with the timestamp it was stored
    under (its own when there is no location data or when it is a
    timestamp of the location data, the resolver's otherwise) and with
    its heart rate as an integer, and with nothing else changed. *)
Theorem merge_rewrites_live_data loc live out live' :
  merge_location_and_live_data utc_time_string loc live = Some (out, live') →
  live' = (λ e, rewritten (snapped_time loc (live_start_time e)) e) <$> live.
Proof.
  intros (m & Hm & ->)%merge_inv.
  apply merge_unsorted_inv in Hm as (m0 & H0 & H1).
  destruct (decide (loc = [])) as [-> | Hloc].
  - apply live_loop_no_location in H1 as (-> & _). apply list_fmap_ext.
    intros i e _. unfold snapped_time.
    by rewrite bool_decide_eq_true_2 by auto.
  - apply location_loop_dom in H0. rewrite dom_empty_L in H0.
    eapply live_loop_snapped; [done | | | done]; set_solver.
Qed.

(** *** Nothing stored is replaced *)

Lemma fill_sorted_items_extend m m' hr :
  map_Forall (λ _, hr_stored_ok) m' →
  map_extends m m' →
  items_extend m (fill_heart_rate hr (sorted_items m')).
Proof.
  intros Hok Hext k o Hk.
  destruct (Hext k o Hk) as (o1 & Hk1 & He1).
  destruct (fill_sorted_items_grows m' hr k o1 Hok Hk1) as (o2 & Hin & [He2 _]).
  exists o2. split; [done|]. by etrans.
Qed.

(** C8. At any point of the two loops, what the dictionary holds is
    held to the end: whatever the location entries [loc1] have stored
    is still there after the location entries [loc2], whatever is there
    after the location data is still there after the live entries
    [live1], and all of it is in the returned items.  Of several
    location entries with one timestamp, the first decides latitude,
    longitude and altitude of the item. *)
Theorem stored_values_never_overwritten loc1 loc2 live1 live2 out live' :
  merge_location_and_live_data utc_time_string (loc1 ++ loc2) (live1 ++ live2)
  = Some (out, live') →
  ∃ m1 m2 m3 written1,
    location_loop utc_time_string ∅ loc1 = Some m1 ∧
    location_loop utc_time_string m1 loc2 = Some m2 ∧
    live_loop utc_time_string (loc1 ++ loc2) m2 live1 = Some (m3, written1) ∧
    map_extends m1 m2 ∧ map_extends m2 m3 ∧
    items_extend m1 out ∧ items_extend m2 out ∧ items_extend m3 out ∧
    (∀ (i : nat) e,
       (loc1 ++ loc2) !! i = Some e →
       (∀ (j : nat) e', (j < i)%nat → (loc1 ++ loc2) !! j = Some e' →
                        loc_start_time e' ≠ loc_start_time e) →
       ∃ o, (loc_start_time e, o) ∈ out ∧
            latitude o = Some (loc_latitude e) ∧
            longitude o = Some (loc_longitude e) ∧
            altitude o = loc_altitude e).
Proof.
  intros (m4 & Hm & ->)%merge_inv.
  pose proof (merge_unsorted_hr_ok _ _ _ _ Hm) as Hok.
  apply merge_unsorted_inv in Hm as (m2 & H0 & H1).
  pose proof H0 as H0'. rewrite location_loop_app in H0'.
  destruct (location_loop utc_time_string ∅ loc1) as [m1|] eqn:Hl1; simplify_eq/=.
  pose proof H1 as H1'. rewrite live_loop_app in H1'.
  destruct (live_loop utc_time_string (loc1 ++ loc2) m2 live1)
    as [[m3 r1]|] eqn:Hv1; simplify_eq/=.
  destruct (live_loop utc_time_string (loc1 ++ loc2) m3 live2)
    as [[m4' r2]|] eqn:Hv2; simplify_eq/=.
  assert (H12 : map_extends m1 m2) by (by eapply location_loop_extends).
  assert (H23 : map_extends m2 m3) by (by eapply map_grows_extends, live_loop_grows).
  assert (H34 : map_extends m3 m4) by (by eapply map_grows_extends, live_loop_grows).
  exists m1, m2, m3, r1. split_and!; try done.
  - apply fill_sorted_items_extend; [done|].
    eapply (map_rel_trans _); [done|]. by eapply (map_rel_trans _).
  - apply fill_sorted_items_extend; [done|]. by eapply (map_rel_trans _).
  - by apply fill_sorted_items_extend.
  - intros i e Hi Hfirst.
    destruct (location_loop_first _ _ _ _ i e H0 Hi (lookup_empty _) Hfirst)
      as (t & _ & Hk2).
    destruct (live_loop_grows _ _ _ _ _ _ H1 _ _ Hk2) as (o4 & Hk4 & [_ Hpos4]).
    destruct (fill_sorted_items_grows m4 0 _ o4 Hok Hk4) as (o & Hin & [_ Hpos]).
    exists o. split; [done|].
    destruct Hpos4 as (?&?&?), Hpos as (?&?&?). cbn in *.
    split_and!; congruence.
Qed.
End MergeTheorems.

(** ** The tree *)

Lemma el_tag_append p c : el_tag (append p c) = el_tag p.
Proof. by destruct p. Qed.

Lemma el_children_append p c : el_children (append p c) = el_children p ++ [c].
Proof. by destruct p. Qed.

Lemma children_named_append n p c :
  children_named n (append p c) =
  children_named n p ++ (if decide (el_tag c = Tag n) then [c] else []).
Proof.
  unfold children_named. rewrite el_children_append, filter_app. f_equal.
Qed.

Lemma has_child_append n p c :
  has_child n (append p c) = has_child n p || bool_decide (el_tag c = Tag n).
Proof.
  unfold has_child. rewrite children_named_append.
  destruct (decide (el_tag c = Tag n)) as [Hc|Hc].
  - rewrite (bool_decide_eq_true_2 _ Hc), orb_true_r.
    apply bool_decide_eq_true_2. by destruct (children_named n p).
  - rewrite (bool_decide_eq_false_2 _ Hc), orb_false_r. by rewrite app_nil_r.
Qed.

Lemma lap_like_append p c :
  el_tag c ≠ Tag "Track" → lap_like p → lap_like (append p c).
Proof.
  intros Hc [Ht Hn]. split; [by rewrite el_tag_append|].
  rewrite children_named_append, Hn. by destruct (decide (el_tag c = Tag "Track")).
Qed.

(** A property that every statement keeps is kept by a guarded one. *)
Lemma when_true_keeps (P : element → Prop) b stmt e e' :
  (∀ x y, P x → stmt x = Some y → P y) →
  P e → when_true b stmt e = Some e' → P e'.
Proof. unfold when_true. destruct b; intros Hs He H; simplify_eq; eauto. Qed.

Lemma sub_element_lap_like c p p' :
  el_tag c ≠ Tag "Track" → lap_like p → sub_element c p = Some p' → lap_like p'.
Proof. intros Hc Hp [= <-]. by apply lap_like_append. Qed.

Lemma bind_sub_element_lap_like {A} (o : option A) (c : A → element) p p' :
  (∀ a, el_tag (c a) ≠ Tag "Track") → lap_like p →
  (a ← o; sub_element (c a) p) = Some p' → lap_like p'.
Proof.
  intros Hc Hp H. destruct o as [a|]; [|done].
  by eapply sub_element_lap_like.
Qed.

(** One statement of [create_lap], in a hypothesis [H] that the rest of
    the function returns: the lap it leaves is still a lap. *)
Ltac lap_statement H :=
  let lap := fresh "lap" in
  let Hstep := fresh "Hstep" in
  apply bind_Some in H as (lap & Hstep & H);
  first
    [ eapply (when_true_keeps lap_like) in Hstep;
      [ | intros ? ? ?;
          first [ apply sub_element_lap_like; done
                | apply bind_sub_element_lap_like; done ]
        | eassumption ]
    | eapply sub_element_lap_like in Hstep; [ | done | eassumption ] ].

Section Lap.
Variable int_of_string : string → option Z.
Variable float_of_string : string → option Q.

Lemma create_lap_lap_like start_time duration distance calories avg_hr max_hr
    avg_speed max_speed avg_cadence max_cadence lap :
  create_lap int_of_string float_of_string start_time duration distance calories
             avg_hr max_hr avg_speed max_speed avg_cadence max_cadence = Some lap →
  lap_like lap.
Proof.
  unfold create_lap. intros H.
  assert (H0 : lap_like (Element (Tag "Lap") [(Tag "StartTime", start_time)] None []))
    by done.
  revert H0 H.
  generalize (Element (Tag "Lap") [(Tag "StartTime", start_time)] None []).
  intros lap0 H0 H.
  do 8 lap_statement H.
  eapply (when_true_keeps lap_like) in H; [done | | eassumption].
  intros x y Hx Hy.
  repeat (apply bind_Some in Hy as (? & _ & Hy)).
  eapply sub_element_lap_like; [| exact Hx | exact Hy]. done.
Qed.
End Lap.

Lemma build_track_children trackpoints :
  el_tag (build_track trackpoints) = Tag "Track" ∧
  el_children (build_track trackpoints) = omap id trackpoints.
Proof.
  unfold build_track.
  assert (Hgen : ∀ tps track,
             el_tag (fold_left (λ track tp, match tp with
                                            | Some e => append track e
                                            | None => track end) tps track)
             = el_tag track ∧
             el_children (fold_left (λ track tp, match tp with
                                                 | Some e => append track e
                                                 | None => track end) tps track)
             = el_children track ++ omap id tps).
  { induction tps as [|[e|] tps IH]; intros track; cbn.
    - by rewrite app_nil_r.
    - destruct (IH (append track e)) as [-> ->].
      by rewrite el_tag_append, el_children_append, <- app_assoc.
    - apply IH. }
  apply Hgen.
Qed.

(** The lap of the tree of [build_xml]: the lap given, with the track
    when there is a trackpoint that is not [None]. *)
Lemma document_lap_build_tree a_id ex_type lap trackpoints :
  lap_like lap →
  ∃ lap', document_lap (build_tree a_id ex_type lap trackpoints) = Some lap' ∧
          has_child "Track" lap' = bool_decide (omap id trackpoints ≠ []) ∧
          (∀ track, track ∈ children_named "Track" lap' →
                    el_children track = omap id trackpoints).
Proof.
  intros [Htag Hno].
  destruct (build_track_children trackpoints) as [Httag Htch].
  unfold build_tree, document_lap. cbn. rewrite Htch.
  set (track := build_track trackpoints) in *.
  set (lap' := if bool_decide (0 < length (omap id trackpoints))%nat
               then append lap track else lap).
  assert (Hlap' : el_tag lap' = Tag "Lap").
  { unfold lap'. case_bool_decide; by rewrite ?el_tag_append. }
  exists lap'. split.
  { rewrite decide_True by done. cbn. unfold children_named. cbn.
    rewrite decide_False by done. by rewrite decide_True by done. }
  unfold lap'.
  case_bool_decide as Hlen.
  - split.
    + rewrite has_child_append, Httag, bool_decide_eq_true_2 by done.
      rewrite orb_true_r. symmetry. apply bool_decide_eq_true_2.
      intros Heq. rewrite Heq in Hlen. cbn in Hlen. lia.
    + intros tr. rewrite children_named_append, Hno, decide_True by done.
      by intros ->%list_elem_of_singleton.
  - split.
    + unfold has_child. rewrite Hno.
      destruct (omap id trackpoints); [done | cbn in Hlen; lia].
    + intros tr. rewrite Hno. by intros ?%elem_of_nil.
Qed.

(** *** Trackpoints *)

(** Without a true heart rate and a true cadence, the trackpoint is the
    time and the position, or nothing. *)
Lemma create_trackpoint_no_sensor data :
  opt_truthy int_truthy (heart_rate data) = false →
  opt_truthy num_truthy (cadence data) = false →
  create_trackpoint data =
  if opt_truthy num_truthy (altitude data) && opt_truthy num_truthy (longitude data)
  then
    lat ← latitude data;
    lon ← longitude data;
    Some (Some (Element (Tag "Trackpoint") [] None
                  [leaf (Tag "Time") (Str (time data));
                   Element (Tag "Position") [] None
                     [leaf (Tag "LatitudeDegrees") (StrNum lat);
                      leaf (Tag "LongitudeDegrees") (StrNum lon)]]))
  else Some None.
Proof.
  intros Hh Hc. unfold create_trackpoint. rewrite Hh, Hc.
  destruct (opt_truthy num_truthy (altitude data)
            && opt_truthy num_truthy (longitude data)); cbn; [|done].
  by destruct (latitude data), (longitude data).
Qed.

Lemma create_trackpoint_no_sensor_inv data tp :
  opt_truthy int_truthy (heart_rate data) = false →
  opt_truthy num_truthy (cadence data) = false →
  create_trackpoint data = Some (Some tp) →
  has_child "Position" tp = true ∧
  has_child "HeartRateBpm" tp = false ∧
  has_child "Cadence" tp = false.
Proof.
  intros Hh Hc. rewrite create_trackpoint_no_sensor by done.
  destruct (opt_truthy num_truthy (altitude data)
            && opt_truthy num_truthy (longitude data)); [|done].
  destruct (latitude data), (longitude data); intros [= <-]. done.
Qed.

(** C1, on the code. An observation with a latitude and a longitude
    and without an altitude gets no position, whatever else it holds:
    [create_trackpoint] returns without error, and what it returns is
    [None] or a trackpoint without a child named Position.  The
    condition of the position reads the altitude where the position
    needs the latitude. *)
Theorem position_gated_on_altitude (t : string) (lat lon : pynum)
    (d c : option pynum) (h : option Z) (s : option pynum) :
  match create_trackpoint (Observation t (Some lat) (Some lon) None d c h s) with
  | Some (Some tp) => has_child "Position" tp = false
  | Some None => True
  | None => False
  end.
Proof.
  unfold create_trackpoint. cbn.
  destruct h as [h|]; cbn; [destruct (int_truthy h); cbn|];
    (destruct c as [c|]; cbn; [destruct (num_truthy c); cbn|]); done.
Qed.

(** C6, on the code. With the average heart rate ["0.0"] the lap has
    no maximum heart rate, whatever the maximum is; without an average
    and with the maximum ["0.0"], the lap has a maximum heart rate
    whenever ["0.0"] is a number.  The condition of the maximum reads
    the average where it should read the maximum. *)
Theorem max_heart_rate_gated_on_average (int_of_string : string → option Z)
    (float_of_string : string → option Q) (start_time max_hr : string) :
  create_lap int_of_string float_of_string start_time "" "" "" "0.0" max_hr "" "" "" ""
  = Some (Element (Tag "Lap") [(Tag "StartTime", start_time)] None
            [leaf (Tag "Intensity") (Str "Active");
             leaf (Tag "TriggerMethod") (Str "Manual")]) ∧
  create_lap int_of_string float_of_string start_time "" "" "" "" "0.0" "" "" "" ""
  = v ← float_of_string "0.0";
    Some (Element (Tag "Lap") [(Tag "StartTime", start_time)] None
            [heart_rate_node "MaximumHeartRateBpm" v;
             leaf (Tag "Intensity") (Str "Active");
             leaf (Tag "TriggerMethod") (Str "Manual")]).
Proof.
  split.
  - unfold create_lap. cbn. by rewrite andb_false_r.
  - unfold create_lap. cbn. by destruct (float_of_string "0.0").
Qed.

(** *** A run without live data *)

Lemma fill_heart_rate_no_readings items : ∀ hr,
  Forall (λ p, heart_rate p.2 = None) items →
  fill_heart_rate hr items = (λ p, (p.1, set_heart_rate hr p.2)) <$> items.
Proof.
  induction items as [|[k o] items IH]; intros hr Hall; [done|].
  apply Forall_cons in Hall as [Ho Hall]. cbn in Ho |- *.
  rewrite Ho. f_equal. by apply IH.
Qed.

Section Pipeline.
Variable utc_time_string : Z → option string.
Variable int_of_string : string → option Z.
Variable float_of_string : string → option Q.
Variable fetch_live_data : string → option (list live_entry).
Variable fetch_location_data : string → option (list location_entry).

Lemma merge_no_live_items loc out live' :
  merge_location_and_live_data utc_time_string loc [] = Some (out, live') →
  live' = [] ∧
  ∀ k o, (k, o) ∈ out → heart_rate o = Some 0 ∧ cadence o = None.
Proof.
  intros (m & Hm & ->)%merge_inv.
  apply merge_unsorted_inv in Hm as (m0 & H0 & H1). simplify_eq/=.
  split; [done|].
  assert (Hall : map_Forall (λ _ o, heart_rate o = None ∧ cadence o = None) m).
  { eapply (location_loop_forall _ (λ o, heart_rate o = None ∧ cadence o = None));
      [| |exact H0]; [done | apply map_Forall_empty]. }
  intros k o. rewrite fill_heart_rate_no_readings.
  - intros ([k' o'] & [= -> ->] & Hin)%list_elem_of_fmap.
    apply elem_of_sorted_items in Hin. destruct (Hall k' o' Hin) as [_ Hc].
    done.
  - apply Forall_forall. intros [k' o'] Hin%elem_of_sorted_items.
    by destruct (Hall k' o' Hin).
Qed.

(** C5, amended. For an exercise without live data, whatever its
    location data, no trackpoint has a heart rate or a cadence, so a
    trackpoint is written exactly for the observations that get a
    position: the lap has a track if and only if some observation gets
    a position, and every trackpoint of the track has a position and
    neither heart rate nor cadence. *)
Theorem track_without_live_data (ex exercise : exercise)
    (loc : list location_entry) (root : element) :
  str_truthy (ex_live_data ex) = false →
  (if str_truthy (ex_location_data ex)
   then fetch_location_data (ex_datauuid ex) else Some []) = Some loc →
  exercise_tree utc_time_string int_of_string float_of_string
                fetch_live_data fetch_location_data ex exercise = Some root →
  ∃ lap out,
    document_lap root = Some lap ∧
    merge_location_and_live_data utc_time_string loc [] = Some (out, []) ∧
    (has_child "Track" lap = true ↔
     ∃ k o, (k, o) ∈ out ∧ trackpoint_has "Position" o) ∧
    (∀ track tp, track ∈ children_named "Track" lap → tp ∈ el_children track →
                 has_child "Position" tp = true ∧
                 has_child "HeartRateBpm" tp = false ∧
                 has_child "Cadence" tp = false).
Proof.
  intros Hflag Hloc H. unfold exercise_tree in H. cbn zeta in H.
  apply bind_Some in H as (lap0 & Hlap0 & H).
  rewrite Hflag, Hloc in H. cbn in H.
  apply bind_Some in H as ([out live'] & Hmerge & H).
  apply bind_Some in H as (tps & Htps & H). simplify_eq/=.
  destruct (merge_no_live_items _ _ _ Hmerge) as [-> Hitems].
  apply create_lap_lap_like in Hlap0.
  destruct (document_lap_build_tree
              (replace_space_T (ex_start_time exercise) ++ "Z")%string
              (convert_activity_type (ex_exercise_type exercise))
              lap0 tps Hlap0) as (lap & Hdoc & Htrack & Hchildren).
  apply mapM_Some in Htps.
  assert (Hsome : ∀ tp, tp ∈ omap id tps ↔
                        ∃ k o, (k, o) ∈ out ∧ create_trackpoint o = Some (Some tp)).
  { intros tp. rewrite list_elem_of_omap. split.
    - intros (x & Hx & Hid). cbn in Hid. subst x.
      apply list_elem_of_lookup_1 in Hx as [i Hi].
      destruct (Forall2_lookup_r _ _ _ _ _ Htps Hi) as ([k o] & Hko & Hc).
      exists k, o. split; [by eapply list_elem_of_lookup_2 | done].
    - intros (k & o & Hko & Hc).
      apply list_elem_of_lookup_1 in Hko as [i Hi].
      destruct (Forall2_lookup_l _ _ _ _ _ Htps Hi) as (x & Hx & Hc').
      cbn in Hc'. rewrite Hc in Hc'. simplify_eq.
      exists (Some tp). split; [by eapply list_elem_of_lookup_2 | done]. }
  assert (Hshape : ∀ k o tp, (k, o) ∈ out → create_trackpoint o = Some (Some tp) →
                             has_child "Position" tp = true ∧
                             has_child "HeartRateBpm" tp = false ∧
                             has_child "Cadence" tp = false).
  { intros k o tp Hko Hc. destruct (Hitems k o Hko) as [Hh Hcad].
    apply (create_trackpoint_no_sensor_inv o); [by rewrite Hh | by rewrite Hcad | done]. }
  exists lap, out. split; [done|]. split; [done|]. split.
  - rewrite Htrack, bool_decide_eq_true. split.
    + intros Hne. destruct (omap id tps) as [|tp rest] eqn:Heq; [done|].
      destruct (proj1 (Hsome tp)) as (k & o & Hko & Hc); [by left|].
      exists k, o. split; [done|]. exists tp. split; [done|].
      by eapply Hshape.
    + intros (k & o & Hko & tp & Hc & _) Heq.
      assert (Hin : tp ∈ omap id tps) by (apply Hsome; eauto).
      rewrite Heq in Hin. by apply elem_of_nil in Hin.
  - intros track tp Htr Htp. rewrite (Hchildren track Htr) in Htp.
    apply Hsome in Htp as (k & o & Hko & Hc). by eapply Hshape.
Qed.
End Pipeline.

(** C5, as stated, fails: the sample exercise has no live data and one
    position, with an altitude, and its lap has a track. *)
Lemma lap_with_track_without_live_data :
  ¬ (∀ (clock : Z → option string) (int_of_string : string → option Z)
       (float_of_string : string → option Q)
       (fetch_live : string → option (list live_entry))
       (fetch_location : string → option (list location_entry))
       (ex : exercise) (loc : list location_entry) (root : element),
       str_truthy (ex_live_data ex) = false →
       str_truthy (ex_location_data ex) = true →
       fetch_location (ex_datauuid ex) = Some loc →
       loc ≠ [] →
       exercise_tree clock int_of_string float_of_string fetch_live fetch_location
                     ex ex = Some root →
       ∃ lap, document_lap root = Some lap ∧ has_child "Track" lap = false).
Proof.
  intros H.
  edestruct (H sample_clock sample_int_of_string sample_float_of_string
               sample_fetch_live_data sample_fetch_location_data
               sample_exercise sample_locations_with_altitude)
    as (lap & Hlap & Hno); [done | done | done | done | vm_compute; reflexivity |].
  vm_compute in Hlap. injection Hlap as <-. vm_compute in Hno. discriminate Hno.
Qed.

(** ** The theorems at the sample data *)

(** C3 at the target 1400 and the timestamps 1000 and 2000: the
    resolver returns 1000. *)
Lemma find_nearest_time_spec_witness :
  find_nearest_time 1400 sample_locations = 1000 ∧
  find_nearest_time 1400 sample_locations ∈ loc_start_time <$> sample_locations.
Proof.
  split; [reflexivity|].
  apply (find_nearest_time_spec 1400 sample_locations).
  exists 1000. split; [by left | reflexivity].
Defined.

(** C4, amended, at the target 1400 and the timestamps 1000 and 2000. *)
Lemma find_nearest_time_member_witness :
  find_nearest_time 1400 sample_locations ∈ loc_start_time <$> sample_locations ↔
  ∃ d, d ∈ sample_locations ∧ loc_start_time d < 2 * 1400.
Proof.
  apply (find_nearest_time_member 1400 sample_locations).
  - reflexivity.
  - intros d Hd. apply list_elem_of_In in Hd. cbn in Hd.
    destruct Hd as [<- | [<- | []]]; reflexivity.
Defined.

(** C2 at the sample data: both items end with the heart rate 120. *)
Lemma merged_heart_rate_forward_filled_witness :
  ∃ out live',
    merge_location_and_live_data sample_clock sample_locations sample_live
    = Some (out, live') ∧
    ∃ m, merge_unsorted sample_clock sample_locations sample_live = Some (m, live') ∧
         out.*1 = (sorted_items m).*1 ∧
         StronglySorted Z.lt out.*1 ∧
         (∀ k o, (k, o) ∈ sorted_items m ↔ m !! k = Some o) ∧
         (∀ k o h, (k, o) ∈ sorted_items m → heart_rate o = Some h →
                   h ≠ 0 ∧ ∃ e, e ∈ sample_live ∧ py_int <$> live_heart_rate e = Some h) ∧
         (∀ (i : nat) k o, out !! i = Some (k, o) →
                           ∃ h, heart_rate o = Some h ∧
                                last_reading (sorted_items m) i h).
Proof.
  eexists _, _. split; [vm_compute; reflexivity|].
  apply (merged_heart_rate_forward_filled sample_clock sample_locations sample_live).
  vm_compute. reflexivity.
Defined.

(** C7 at the sample live data, without location data. *)
Lemma no_location_no_snapping_witness :
  ∃ out live',
    merge_location_and_live_data sample_clock [] sample_live = Some (out, live') ∧
    live_start_time <$> live' = live_start_time <$> sample_live ∧
    (∀ e, e ∈ sample_live → has_sensor_data e = true → live_start_time e ∈ out.*1) ∧
    (∀ k, k ∈ out.*1 → k ∈ live_start_time <$> sample_live).
Proof.
  eexists _, _. split; [vm_compute; reflexivity|].
  apply (no_location_no_snapping sample_clock sample_live).
  vm_compute. reflexivity.
Defined.

(** C8 at the sample data, split after the first location entry and
    after the live entry. *)
Lemma stored_values_never_overwritten_witness :
  ∃ out live' m1 m2 m3 written1,
    merge_location_and_live_data sample_clock sample_locations sample_live
    = Some (out, live') ∧
    location_loop sample_clock ∅ [LocationEntry 1000 (PyInt 10) (PyInt 20) None]
    = Some m1 ∧
    location_loop sample_clock m1 [LocationEntry 2000 (PyInt 11) (PyInt 21) None]
    = Some m2 ∧
    live_loop sample_clock sample_locations m2 sample_live = Some (m3, written1) ∧
    map_extends m1 m2 ∧ map_extends m2 m3 ∧
    items_extend m1 out ∧ items_extend m2 out ∧ items_extend m3 out.
Proof.
  destruct (stored_values_never_overwritten sample_clock
              [LocationEntry 1000 (PyInt 10) (PyInt 20) None]
              [LocationEntry 2000 (PyInt 11) (PyInt 21) None]
              sample_live []
              [(1000, Observation "1970-01-01T00:00:01.000Z" (Some (PyInt 10))
                        (Some (PyInt 20)) None None None (Some 120) None);
               (2000, Observation "1970-01-01T00:00:02.000Z" (Some (PyInt 11))
                        (Some (PyInt 21)) None None None (Some 120) None)]
              [LiveEntry 1000 None None (Some (PyInt 120)) None])
    as (m1 & m2 & m3 & w & H1 & H2 & H3 & H12 & H23 & He1 & He2 & He3 & _).
  { vm_compute. reflexivity. }
  eexists _, _, m1, m2, m3, w. split; [vm_compute; reflexivity|].
  split_and!; assumption.
Defined.

(** C9, amended, at the sample data: the live entry ends with the
    timestamp 1000. *)
Lemma merge_rewrites_live_data_witness :
  ∃ out,
    merge_location_and_live_data sample_clock sample_locations sample_live
    = Some (out, [LiveEntry 1000 None None (Some (PyInt 120)) None]) ∧
    [LiveEntry 1000 None None (Some (PyInt 120)) None]
    = (λ e, rewritten (snapped_time sample_locations (live_start_time e)) e)
        <$> sample_live.
Proof.
  eexists. split; [vm_compute; reflexivity|].
  eapply (merge_rewrites_live_data sample_clock sample_locations sample_live).
  vm_compute. reflexivity.
Defined.

(** C10 at the sample data. *)
Lemma merged_keys_positional_witness :
  ∃ out live',
    merge_location_and_live_data sample_clock sample_locations sample_live
    = Some (out, live') ∧
    ∀ k, k ∈ out.*1 → k ∈ loc_start_time <$> sample_locations ∨ k = 0.
Proof.
  eexists _, _. split; [vm_compute; reflexivity|].
  eapply (merged_keys_positional sample_clock sample_locations sample_live).
  - discriminate.
  - vm_compute. reflexivity.
Defined.

(** C5, amended, at the sample exercise: its lap has a track, and the
    observation at 1000 has a position. *)
Lemma track_without_live_data_witness :
  ∃ root lap out,
    exercise_tree sample_clock sample_int_of_string sample_float_of_string
                  sample_fetch_live_data sample_fetch_location_data
                  sample_exercise sample_exercise = Some root ∧
    document_lap root = Some lap ∧
    merge_location_and_live_data sample_clock sample_locations_with_altitude []
    = Some (out, []) ∧
    (has_child "Track" lap = true ↔
     ∃ k o, (k, o) ∈ out ∧ trackpoint_has "Position" o).
Proof.
  destruct (track_without_live_data sample_clock sample_int_of_string
              sample_float_of_string sample_fetch_live_data
              sample_fetch_location_data sample_exercise sample_exercise
              sample_locations_with_altitude
              (build_tree "2020-01-01T10:00:00.000Z" "Running"
                 (Element (Tag "Lap") [(Tag "StartTime", "2020-01-01T10:00:00.000Z")] None
                    [leaf (Tag "TotalTimeSeconds") (StrNum (PyFloat (1800000 # 1000)));
                     leaf (Tag "DistanceMeters") (Str "5000.0");
                     leaf (Tag "Calories") (StrNum (PyInt 250));
                     leaf (Tag "Intensity") (Str "Active");
                     leaf (Tag "TriggerMethod") (Str "Manual")])
                 [Some (Element (Tag "Trackpoint") [] None
                          [leaf (Tag "Time") (Str "1970-01-01T00:00:01.000Z");
                           Element (Tag "Position") [] None
                             [leaf (Tag "LatitudeDegrees") (StrNum (PyFloat (10 # 1)));
                              leaf (Tag "LongitudeDegrees") (StrNum (PyFloat (20 # 1)))]])]))
    as (lap & out & Hlap & Hout & Htrack & _).
  - reflexivity.
  - reflexivity.
  - vm_compute. reflexivity.
  - eexists _, lap, out. split; [vm_compute; reflexivity|].
    split; [exact Hlap|]. split; [exact Hout | exact Htrack].
Defined.

(** * Further properties *)

(** ** The resolver *)

(** X1. A target that is itself a timestamp of the data is returned as
    it is. *)
Theorem find_nearest_time_exact (ts : Z) (data : list location_entry) :
  ts ∈ loc_start_time <$> data → find_nearest_time ts data = ts.
Proof.
  intros Hin.
  destruct (find_nearest_time_first_minimizer ts data) as (i & _ & Hmin & _).
  apply elem_of_sorted_timestamps, list_elem_of_lookup_1 in Hin as [j Hj].
  specialize (Hmin (S j) ts Hj). lia.
Qed.

Lemma find_nearest_time_exact_witness :
  find_nearest_time 2000 sample_locations = 2000.
Proof.
  apply (find_nearest_time_exact 2000 sample_locations).
  apply list_elem_of_In. cbn. auto.
Defined.

(** X2. The value depends on the timestamps of the data only, not on
    the order of the entries nor on what else they hold. *)
Theorem find_nearest_time_order (ts : Z) (data data' : list location_entry) :
  loc_start_time <$> data ≡ₚ loc_start_time <$> data' →
  find_nearest_time ts data = find_nearest_time ts data'.
Proof.
  intros Hperm. unfold find_nearest_time. f_equal.
  apply (StronglySorted_unique Z.le); try apply sorted_timestamps_sorted.
  by rewrite !sorted_timestamps_perm.
Qed.

Lemma find_nearest_time_order_witness :
  find_nearest_time 1400 sample_locations
  = find_nearest_time 1400
      [LocationEntry 2000 (PyInt 0) (PyInt 0) (Some (PyInt 7));
       LocationEntry 1000 (PyInt 1) (PyInt 1) None].
Proof.
  apply (find_nearest_time_order 1400 sample_locations).
  cbn. apply Permutation_swap.
Defined.

(** ** The merge, further *)

Lemma snapped_time_idem loc ts :
  snapped_time loc (snapped_time loc ts) = snapped_time loc ts.
Proof.
  unfold snapped_time at 2 3. case_bool_decide as Hs.
  - unfold snapped_time. by rewrite bool_decide_eq_true_2.
  - destruct (find_nearest_time_range ts loc) as [Heq | Hin].
    + rewrite Heq. unfold snapped_time. case_bool_decide; [done|].
      apply find_nearest_time_zero.
    + unfold snapped_time. rewrite bool_decide_eq_true_2; auto.
Qed.

Lemma store_field_falsy {A} (f : field A) ts t v (m : gmap Z observation) :
  opt_truthy (f_truthy f) v = false → store_field f ts t v m = m.
Proof.
  unfold store_field. destruct v as [x|]; cbn; [|done]. by intros ->.
Qed.

(** A property of the keys and their values that every write of the
    field keeps. *)
Lemma store_field_forall_key {A} (f : field A) `{!FieldLaws f}
    (P : Z → observation → Prop) ts t v (m : gmap Z observation) :
  (∀ x, P ts (f_set f x (bare t))) →
  (∀ x o, P ts o → P ts (f_set f x o)) →
  map_Forall P m → map_Forall P (store_field f ts t v m).
Proof.
  intros Hnew Hset Hall.
  destruct (store_field_cases f ts t v m)
    as [[-> _] | [(x & Hv & Ht & _ & ->) | (x & o & Hv & Ht & Hm & _ & ->)]].
  - done.
  - apply map_Forall_insert_2; eauto.
  - apply map_Forall_insert_2; [|done]. apply Hset. by apply (Hall ts).
Qed.

Section MergeMore.
Variable utc_time_string : Z → option string.
Implicit Types (m : gmap Z observation) (loc : list location_entry)
         (live : list live_entry).

Lemma effective_time_settled loc m ts :
  keys_settled loc m → effective_time loc m ts = snapped_time loc ts.
Proof.
  intros Hset. destruct (decide (loc = [])) as [-> | Hloc].
  - rewrite effective_time_no_location. unfold snapped_time.
    by rewrite bool_decide_eq_true_2 by auto.
  - destruct (Hset Hloc). by apply effective_time_snapped.
Qed.

Lemma location_loop_settled loc m0 :
  location_loop utc_time_string ∅ loc = Some m0 → keys_settled loc m0.
Proof.
  intros H%location_loop_dom _. rewrite dom_empty_L in H. set_solver.
Qed.

(** What one live entry does to the keys. *)
Lemma live_step_dom loc m entry m' entry' :
  keys_settled loc m →
  live_step utc_time_string loc m entry = Some (m', entry') →
  keys_settled loc m' ∧
  dom m' = dom m ∪ (if has_sensor_data entry
                    then {[snapped_time loc (live_start_time entry)]} else ∅).
Proof.
  intros Hset Hs.
  assert (Hdom : dom m' = dom m ∪ (if has_sensor_data entry
                    then {[snapped_time loc (live_start_time entry)]} else ∅)).
  { destruct (has_sensor_data entry) eqn:Hdata.
    - apply live_step_inv in Hs as (_ & _ & Hgrow%map_rel_dom & Hup & Hkey & _).
      rewrite effective_time_settled in * by done.
      specialize (Hkey Hdata). set_solver.
    - unfold live_step in Hs. cbn zeta in Hs.
      destruct (utc_time_string _) as [t|]; simplify_eq/=.
      unfold has_sensor_data in Hdata.
      apply orb_false_iff in Hdata as [Hdata Hsp].
      apply orb_false_iff in Hdata as [Hdata Hhr].
      apply orb_false_iff in Hdata as [Hdi Hca].
      rewrite (store_field_falsy distance_key) by done.
      rewrite (store_field_falsy cadence_key) by done.
      rewrite (store_field_falsy heart_rate_key) by done.
      rewrite (store_field_falsy speed_key) by done.
      set_solver. }
  split; [|done]. intros Hloc. destruct (Hset Hloc) as [Hlow Hup].
  rewrite Hdom. split; [set_solver|].
  pose proof (effective_time_range loc m (live_start_time entry) _ Hloc Hup
                ltac:(set_solver) ltac:(set_solver)) as Hin.
  rewrite effective_time_settled in Hin by done.
  destruct (has_sensor_data entry); set_solver.
Qed.

Lemma live_loop_dom loc live : ∀ m m' live',
  keys_settled loc m →
  live_loop utc_time_string loc m live = Some (m', live') →
  keys_settled loc m' ∧
  dom m' = dom m ∪ list_to_set
             ((λ e, snapped_time loc (live_start_time e))
                <$> filter (λ e, has_sensor_data e = true) live).
Proof.
  induction live as [|e live IH]; intros m m' live' Hset H; simplify_eq/=.
  - split; [done|]. set_solver.
  - destruct (live_step utc_time_string loc m e) as [[m1 e1]|] eqn:Hs; simplify_eq/=.
    destruct (live_loop utc_time_string loc m1 live) as [[m2 r]|] eqn:Hl; simplify_eq/=.
    destruct (live_step_dom _ _ _ _ _ Hset Hs) as [Hset1 Hdom1].
    destruct (IH _ _ _ Hset1 Hl) as [Hset2 Hdom2].
    split; [done|]. rewrite Hdom2, Hdom1, filter_cons.
    destruct (has_sensor_data e); [rewrite decide_True by done | rewrite decide_False by done];
      set_solver.
Qed.

(** The keys of the dictionary the two loops leave. *)
Lemma merge_unsorted_dom loc live m live' :
  merge_unsorted utc_time_string loc live = Some (m, live') →
  dom m = list_to_set (loc_start_time <$> loc) ∪
          list_to_set ((λ e, snapped_time loc (live_start_time e))
                         <$> filter (λ e, has_sensor_data e = true) live).
Proof.
  intros (m0 & H0 & H1)%merge_unsorted_inv.
  pose proof (location_loop_settled _ _ H0) as Hset.
  destruct (live_loop_dom _ _ _ _ _ Hset H1) as [_ ->].
  apply location_loop_dom in H0. rewrite H0, dom_empty_L. set_solver.
Qed.

(** X4. The keys of the returned items are the timestamps of the
    location entries and the timestamps under which the live entries
    that have something to store are stored, and nothing else. *)
Theorem merged_keys_exact loc live out live' :
  merge_location_and_live_data utc_time_string loc live = Some (out, live') →
  ∀ k, k ∈ out.*1 ↔
       k ∈ loc_start_time <$> loc ∨
       ∃ e, e ∈ live ∧ has_sensor_data e = true ∧
            snapped_time loc (live_start_time e) = k.
Proof.
  intros (m & Hm & ->)%merge_inv k.
  rewrite fill_heart_rate_fst, elem_of_sorted_keys, (merge_unsorted_dom _ _ _ _ Hm).
  rewrite elem_of_union, !elem_of_list_to_set.
  split; (intros [Hk | Hk]; [by left | right]).
  - apply list_elem_of_fmap in Hk as (e & -> & [Hd He]%list_elem_of_filter).
    eauto.
  - destruct Hk as (e & He & Hd & <-).
    apply list_elem_of_fmap. exists e. split; [done|].
    by apply list_elem_of_filter.
Qed.

(** X5. The merge returns no more items than there are entries in the
    two lists, and no two items with the same key. *)
Theorem merged_length_bound loc live out live' :
  merge_location_and_live_data utc_time_string loc live = Some (out, live') →
  NoDup out.*1 ∧ (length out ≤ length loc + length live)%nat.
Proof.
  intros (m & Hm & ->)%merge_inv.
  rewrite fill_heart_rate_fst.
  assert (Hnd : NoDup (sorted_items m).*1).
  { unfold sorted_items. rewrite merge_sort_Permutation.
    apply NoDup_fst_map_to_list. }
  split; [done|].
  rewrite <- (length_fmap fst), fill_heart_rate_fst.
  assert (Hsub : (sorted_items m).*1 ⊆+
                 (loc_start_time <$> loc) ++
                 ((λ e, snapped_time loc (live_start_time e)) <$> live)).
  { apply NoDup_submseteq; [done|]. intros k Hk%elem_of_sorted_keys.
    rewrite (merge_unsorted_dom _ _ _ _ Hm) in Hk.
    rewrite elem_of_union, !elem_of_list_to_set in Hk.
    apply elem_of_app. destruct Hk as [Hk | Hk]; [by left | right].
    apply list_elem_of_fmap in Hk as (e & -> & He%list_elem_of_filter).
    apply list_elem_of_fmap. exists e. by destruct He. }
  apply submseteq_length in Hsub. rewrite length_app, !length_fmap in Hsub.
  by rewrite length_fmap.
Qed.

(** *** When the merge returns *)

Lemma location_loop_is_Some loc : ∀ m,
  is_Some (location_loop utc_time_string m loc) ↔
  Forall (λ e, is_Some (utc_time_string (loc_start_time e))) loc.
Proof.
  induction loc as [|e loc IH]; intros m; cbn.
  - split; [constructor | eauto].
  - rewrite Forall_cons. unfold location_step.
    destruct (utc_time_string (loc_start_time e)) as [t|]; cbn.
    + destruct (m !! loc_start_time e); cbn; rewrite IH; naive_solver.
    + split; [by intros [? ?] | by intros [[? ?] _]].
Qed.

Lemma live_loop_is_Some loc live : ∀ m,
  keys_settled loc m →
  is_Some (live_loop utc_time_string loc m live) ↔
  Forall (λ e, is_Some (utc_time_string (snapped_time loc (live_start_time e)))) live.
Proof.
  induction live as [|e live IH]; intros m Hset; cbn.
  - split; [constructor | eauto].
  - rewrite Forall_cons.
    destruct (live_step utc_time_string loc m e) as [[m1 e1]|] eqn:Hs; cbn.
    + destruct (live_step_dom _ _ _ _ _ Hset Hs) as [Hset1 _].
      apply live_step_inv in Hs as (_ & Hclock & _).
      rewrite effective_time_settled in Hclock by done.
      rewrite <- (IH m1 Hset1).
      destruct (live_loop utc_time_string loc m1 live) as [[m2 r]|]; cbn.
      * split; [eauto | eauto].
      * split; [by intros [? ?] | by intros [_ [? ?]]].
    + split; [by intros [? ?]|]. intros [[t Ht] _].
      unfold live_step in Hs. cbn zeta in Hs.
      rewrite effective_time_settled, Ht in Hs by done. done.
Qed.

(** X3. The merge fails only in the conversion of a timestamp: it
    returns if and only if the conversion succeeds at the timestamp of
    every location entry and at the timestamp every live entry is
    stored under. *)
Theorem merge_returns_iff loc live :
  is_Some (merge_location_and_live_data utc_time_string loc live) ↔
  (∀ e, e ∈ loc → is_Some (utc_time_string (loc_start_time e))) ∧
  (∀ e, e ∈ live →
        is_Some (utc_time_string (snapped_time loc (live_start_time e)))).
Proof.
  rewrite <- !Forall_forall, <- (location_loop_is_Some loc ∅).
  unfold merge_location_and_live_data, merge_unsorted.
  destruct (location_loop utc_time_string ∅ loc) as [m0|] eqn:H0; cbn.
  - rewrite <- (live_loop_is_Some loc live m0) by (by eapply location_loop_settled).
    destruct (live_loop utc_time_string loc m0 live) as [[m r]|]; cbn.
    + split; eauto.
    + split; [by intros [? ?] | by intros [_ [? ?]]].
  - split; [by intros [? ?] | by intros [[? ?] _]].
Qed.

(** *** The time of an item *)

Lemma location_loop_time loc : ∀ m m',
  map_Forall (λ k o, utc_time_string k = Some (time o)) m →
  location_loop utc_time_string m loc = Some m' →
  map_Forall (λ k o, utc_time_string k = Some (time o)) m'.
Proof.
  induction loc as [|e loc IH]; intros m m' Hm H; simplify_eq/=; [done|].
  destruct (location_step utc_time_string m e) as [m1|] eqn:Hs; simplify_eq/=.
  eapply (IH m1); [|done].
  apply location_step_cases in Hs as [[_ ->] | (t & Ht & _ & ->)]; [done|].
  by apply map_Forall_insert_2.
Qed.

Lemma live_loop_time loc live m m' live' :
  live_loop utc_time_string loc m live = Some (m', live') →
  map_Forall (λ k o, utc_time_string k = Some (time o)) m →
  map_Forall (λ k o, utc_time_string k = Some (time o)) m'.
Proof.
  intros H. eapply (live_loop_ind _); [|done].
  intros m1 e m2 e2 Hm1 Hs. unfold live_step in Hs. cbn zeta in Hs.
  destruct (utc_time_string _) as [t|] eqn:Ht; simplify_eq/=.
  repeat (apply store_field_forall_key; [apply _ | | |]); try done.
Qed.

(** The items come from the dictionary. *)
Lemma fill_sorted_items_from (m : gmap Z observation) hr k o' :
  map_Forall (λ _, hr_stored_ok) m →
  (k, o') ∈ fill_heart_rate hr (sorted_items m) →
  ∃ o, m !! k = Some o ∧ obs_grows o o'.
Proof.
  intros Hok [i Hi]%list_elem_of_lookup_1.
  pose proof (fill_heart_rate_Forall2 _ hr (sorted_items_ok m Hok)) as HF.
  destruct (Forall2_lookup_r _ _ _ _ _ HF Hi) as ([k0 o] & Hi0 & Hk & Hg & _).
  cbn in Hk, Hg. subst k0. exists o. split; [|done].
  apply elem_of_sorted_items. by eapply list_elem_of_lookup_2.
Qed.

(** X6. The time of every returned item is the conversion of its key:
    an item stored under a shifted timestamp shows the time of the
    position it was shifted to. *)
Theorem merged_time_of_key loc live out live' :
  merge_location_and_live_data utc_time_string loc live = Some (out, live') →
  ∀ k o, (k, o) ∈ out → utc_time_string k = Some (time o).
Proof.
  intros (m & Hm & ->)%merge_inv k o' Hin.
  pose proof (merge_unsorted_hr_ok _ _ _ _ _ Hm) as Hok.
  apply merge_unsorted_inv in Hm as (m0 & H0 & H1).
  destruct (fill_sorted_items_from m 0 k o' Hok Hin) as (o & Hk & [[Ht _] _]).
  rewrite Ht. eapply (live_loop_time _ _ _ _ _ H1); [|done].
  eapply location_loop_time; [|done]. apply map_Forall_empty.
Qed.

(** *** Merging again *)

Lemma live_step_rewritten loc m entry :
  keys_settled loc m →
  live_step utc_time_string loc m
            (rewritten (snapped_time loc (live_start_time entry)) entry)
  = live_step utc_time_string loc m entry.
Proof.
  intros Hset. unfold live_step. cbn zeta.
  cbn [rewritten live_start_time live_distance live_cadence live_heart_rate live_speed].
  rewrite !effective_time_settled, snapped_time_idem by done.
  by destruct (live_heart_rate entry).
Qed.

Lemma live_loop_rewritten loc live : ∀ m m' live',
  keys_settled loc m →
  live_loop utc_time_string loc m live = Some (m', live') →
  live_loop utc_time_string loc m live' = Some (m', live').
Proof.
  induction live as [|e live IH]; intros m m' live' Hset H; simplify_eq/=; [done|].
  destruct (live_step utc_time_string loc m e) as [[m1 e1]|] eqn:Hs; simplify_eq/=.
  destruct (live_loop utc_time_string loc m1 live) as [[m2 r]|] eqn:Hl; simplify_eq/=.
  destruct (live_step_dom _ _ _ _ _ Hset Hs) as [Hset1 _].
  pose proof Hs as (-> & _)%live_step_inv.
  rewrite effective_time_settled in * by done.
  rewrite live_step_rewritten, Hs by done. cbn.
  by rewrite (IH _ _ _ Hset1 Hl).
Qed.

(** X7. The merge writes to the live entries, but merging again with
    the entries as the first merge left them returns the same items and
    leaves the entries as they are. *)
Theorem merge_again loc live out live' :
  merge_location_and_live_data utc_time_string loc live = Some (out, live') →
  merge_location_and_live_data utc_time_string loc live' = Some (out, live').
Proof.
  intros (m & Hm & ->)%merge_inv.
  apply merge_unsorted_inv in Hm as (m0 & H0 & H1).
  unfold merge_location_and_live_data, merge_unsorted. rewrite H0. cbn.
  by rewrite (live_loop_rewritten _ _ _ _ _ (location_loop_settled _ _ H0) H1).
Qed.
End MergeMore.

(** ** Trackpoints, further *)

(** X8. [create_trackpoint] raises exactly when altitude and longitude
    are true and the latitude is missing, and returns [None] exactly
    when neither the condition of the position nor the heart rate nor
    the cadence is true. *)
Theorem create_trackpoint_outcomes (data : observation) :
  (create_trackpoint data = None ↔
   opt_truthy num_truthy (altitude data) = true ∧
   opt_truthy num_truthy (longitude data) = true ∧
   latitude data = None) ∧
  (create_trackpoint data = Some None ↔
   opt_truthy num_truthy (altitude data) && opt_truthy num_truthy (longitude data)
     = false ∧
   opt_truthy int_truthy (heart_rate data) = false ∧
   opt_truthy num_truthy (cadence data) = false).
Proof.
  unfold create_trackpoint.
  destruct (altitude data) as [a|], (longitude data) as [lo|],
    (latitude data) as [la|], (heart_rate data) as [h|], (cadence data) as [c|];
    cbn;
    try destruct (num_truthy a); try destruct (num_truthy lo);
    try destruct (int_truthy h); try destruct (num_truthy c);
    cbn; naive_solver.
Qed.

(** X9. A trackpoint that is returned is named Trackpoint, starts with
    the time of the observation, has at least one more child, and has
    its children in the order time, position, heart rate, cadence; it
    never has an altitude, a distance or an extension. *)
Theorem create_trackpoint_shape (data : observation) (tp : element) :
  create_trackpoint data = Some (Some tp) →
  el_tag tp = Tag "Trackpoint" ∧
  head (el_children tp) = Some (leaf (Tag "Time") (Str (time data))) ∧
  (2 ≤ length (el_children tp))%nat ∧
  child_tags tp `sublist_of` trackpoint_schema ∧
  has_child "AltitudeMeters" tp = false ∧
  has_child "DistanceMeters" tp = false ∧
  has_child "Extensions" tp = false.
Proof.
  unfold create_trackpoint, trackpoint_schema.
  destruct (altitude data) as [a|], (longitude data) as [lo|],
    (latitude data) as [la|], (heart_rate data) as [h|], (cadence data) as [c|];
    cbn;
    try destruct (num_truthy a); try destruct (num_truthy lo);
    try destruct (int_truthy h); try destruct (num_truthy c);
    cbn; intros [= <-]; cbn;
    (split_and!; try done; try lia;
     repeat first [apply sublist_nil | apply sublist_skip | apply sublist_cons]).
Qed.

Lemma create_trackpoint_shape_witness :
  ∃ tp, create_trackpoint
          (Observation "1970-01-01T00:00:01.000Z" (Some (PyInt 10)) (Some (PyInt 20))
                       (Some (PyInt 5)) None None (Some 120) None) = Some (Some tp) ∧
        child_tags tp `sublist_of` trackpoint_schema.
Proof.
  eexists. split; [reflexivity|].
  eapply (create_trackpoint_shape
            (Observation "1970-01-01T00:00:01.000Z" (Some (PyInt 10)) (Some (PyInt 20))
                         (Some (PyInt 5)) None None (Some 120) None)).
  reflexivity.
Defined.

(** ** The lap, further *)





Section LapMore.
Variable int_of_string : string → option Z.
Variable float_of_string : string → option Q.

End LapMore.

Lemma child_tags_append e c : child_tags (append e c) = child_tags e ++ [el_tag c].
Proof. unfold child_tags. by rewrite el_children_append, fmap_app. Qed.

Lemma el_attrib_append e c : el_attrib (append e c) = el_attrib e.
Proof. by destruct e. Qed.

Lemma sub_element_appends_one c e e' :
  sub_element c e = Some e' → appends_one (el_tag c) e e'.
Proof.
  intros [= <-]. unfold appends_one.
  by rewrite el_tag_append, el_attrib_append, child_tags_append.
Qed.

Lemma bind_sub_element_appends_one {A} (o : option A) (c : A → element) t e e' :
  (∀ a, el_tag (c a) = t) →
  (a ← o; sub_element (c a) e) = Some e' → appends_one t e e'.
Proof.
  intros Ht H. destruct o as [a|]; [|done]. cbn in H.
  rewrite <- (Ht a). by apply sub_element_appends_one.
Qed.

Lemma when_true_appends_at_most t b stmt e e' :
  (∀ x y, stmt x = Some y → appends_one t x y) →
  when_true b stmt e = Some e' → appends_at_most t e e'.
Proof.
  intros Hstmt H. destruct b; cbn in H.
  - destruct (Hstmt _ _ H) as (? & ? & ?). split_and!; [done | done |].
    exists [t]. split; [done|]. reflexivity.
  - simplify_eq. split_and!; [done | done |].
    exists []. split; [by rewrite app_nil_r | apply sublist_nil_l].
Qed.

(** One statement of [create_lap], in a hypothesis [H] that the rest of
    the function returns: what it appends. *)
Ltac lap_appends H :=
  let lap := fresh "lap" in
  let Hstep := fresh "Hstep" in
  apply bind_Some in H as (lap & Hstep & H);
  first
    [ eapply when_true_appends_at_most in Hstep;
      [ | let Hy := fresh "Hy" in
          intros ? ? Hy;
          first [ eapply sub_element_appends_one; exact Hy
                | eapply bind_sub_element_appends_one;
                  [ | exact Hy ]; intros ?; lazy; reflexivity ] ]
    | apply sub_element_appends_one in Hstep ].

Section LapShape.
Variable int_of_string : string → option Z.
Variable float_of_string : string → option Q.

(** What the statements of [create_lap] append, one after the other. *)
Lemma create_lap_children (start_time duration distance calories avg_hr max_hr
    avg_speed max_speed avg_cadence max_cadence : string) (lap : element) :
  create_lap int_of_string float_of_string start_time duration distance calories
             avg_hr max_hr avg_speed max_speed avg_cadence max_cadence = Some lap →
  el_tag lap = Tag "Lap" ∧
  el_attrib lap = [(Tag "StartTime", start_time)] ∧
  ∃ ts1 ts2 ts3 ts4 ts5 ts6 ts9,
    child_tags lap
    = (((((((ts1 ++ ts2) ++ ts3) ++ ts4) ++ ts5) ++ ts6)
        ++ [Tag "Intensity"]) ++ [Tag "TriggerMethod"]) ++ ts9 ∧
    ts1 `sublist_of` [Tag "TotalTimeSeconds"] ∧
    ts2 `sublist_of` [Tag "DistanceMeters"] ∧
    ts3 `sublist_of` [Tag "MaximumSpeed"] ∧
    ts4 `sublist_of` [Tag "Calories"] ∧
    ts5 `sublist_of` [Tag "AverageHeartRateBpm"] ∧
    ts6 `sublist_of` [Tag "MaximumHeartRateBpm"] ∧
    ts9 `sublist_of` [Tag "Extensions"].
Proof.
  unfold create_lap. intros H.
  do 8 lap_appends H.
  eapply when_true_appends_at_most in H.
  2:{ intros x y Hy. repeat (apply bind_Some in Hy as (? & _ & Hy)).
      apply sub_element_appends_one in Hy. cbn in Hy. exact Hy. }
  cbn in *.
  destruct Hstep as (Ht1 & Ha1 & ts1 & Hc1 & Hs1).
  destruct Hstep0 as (Ht2 & Ha2 & ts2 & Hc2 & Hs2).
  destruct Hstep1 as (Ht3 & Ha3 & ts3 & Hc3 & Hs3).
  destruct Hstep2 as (Ht4 & Ha4 & ts4 & Hc4 & Hs4).
  destruct Hstep3 as (Ht5 & Ha5 & ts5 & Hc5 & Hs5).
  destruct Hstep4 as (Ht6 & Ha6 & ts6 & Hc6 & Hs6).
  destruct Hstep5 as (Ht7 & Ha7 & Hc7).
  destruct Hstep6 as (Ht8 & Ha8 & Hc8).
  destruct H as (Ht9 & Ha9 & ts9 & Hc9 & Hs9).
  cbn in Ht1, Ha1, Hc1.
  split; [congruence|]. split; [congruence|].
  exists ts1, ts2, ts3, ts4, ts5, ts6, ts9.
  split_and!; try done.
  by rewrite Hc9, Hc8, Hc7, Hc6, Hc5, Hc4, Hc3, Hc2, Hc1.
Qed.

(** X11. A lap that is returned is named Lap, has the start time as
    its only attribute, has its children in the order of the schema
    (duration, distance, maximum speed, calories, average and maximum
    heart rate, intensity, trigger method, extensions), and always has
    the intensity and the trigger method. *)
Theorem create_lap_shape (start_time duration distance calories avg_hr max_hr
    avg_speed max_speed avg_cadence max_cadence : string) (lap : element) :
  create_lap int_of_string float_of_string start_time duration distance calories
             avg_hr max_hr avg_speed max_speed avg_cadence max_cadence = Some lap →
  el_tag lap = Tag "Lap" ∧
  el_attrib lap = [(Tag "StartTime", start_time)] ∧
  child_tags lap `sublist_of` lap_schema ∧
  Tag "Intensity" ∈ child_tags lap ∧
  Tag "TriggerMethod" ∈ child_tags lap.
Proof.
  intros (Htag & Hattr & ts1 & ts2 & ts3 & ts4 & ts5 & ts6 & ts9 & -> &
          Hs1 & Hs2 & Hs3 & Hs4 & Hs5 & Hs6 & Hs9)%create_lap_children.
  split; [done|]. split; [done|]. split; [|split].
  - unfold lap_schema.
    change [Tag "TotalTimeSeconds"; Tag "DistanceMeters"; Tag "MaximumSpeed";
            Tag "Calories"; Tag "AverageHeartRateBpm"; Tag "MaximumHeartRateBpm";
            Tag "Intensity"; Tag "TriggerMethod"; Tag "Extensions"]
      with (((((((([Tag "TotalTimeSeconds"] ++ [Tag "DistanceMeters"])
                   ++ [Tag "MaximumSpeed"]) ++ [Tag "Calories"])
                 ++ [Tag "AverageHeartRateBpm"]) ++ [Tag "MaximumHeartRateBpm"])
               ++ [Tag "Intensity"]) ++ [Tag "TriggerMethod"])
            ++ [Tag "Extensions"]).
    repeat (apply sublist_app; [|done]). done.
  - rewrite !elem_of_app, list_elem_of_singleton. auto 10.
  - rewrite !elem_of_app, !list_elem_of_singleton. auto 10.
Qed.
End LapShape.

(** ** The document, further *)

Lemma build_track_eq trackpoints :
  build_track trackpoints = Element (Tag "Track") [] None (omap id trackpoints).
Proof.
  unfold build_track.
  assert (Hgen : ∀ tps n a c cs,
             fold_left (λ track tp, match tp with
                                    | Some e => append track e
                                    | None => track end) tps (Element n a c cs)
             = Element n a c (cs ++ omap id tps)).
  { induction tps as [|[e|] tps IH]; intros n a c cs; cbn.
    - by rewrite app_nil_r.
    - by rewrite IH, <- app_assoc.
    - apply IH. }
  apply Hgen.
Qed.

(** The lap of the document, for a lap named Lap. *)
Lemma document_lap_build_tree_eq a_id ex_type lap trackpoints :
  el_tag lap = Tag "Lap" →
  document_lap (build_tree a_id ex_type lap trackpoints)
  = Some (if bool_decide (omap id trackpoints ≠ [])
          then append lap (Element (Tag "Track") [] None (omap id trackpoints))
          else lap).
Proof.
  intros Htag. unfold build_tree, document_lap. rewrite build_track_eq. cbn.
  set (lap' := if bool_decide (0 < length (omap id trackpoints))%nat
               then append lap (Element (Tag "Track") [] None (omap id trackpoints))
               else lap).
  assert (Hlap' : el_tag lap' = Tag "Lap").
  { unfold lap'. case_bool_decide; by rewrite ?el_tag_append. }
  rewrite decide_True by done. cbn. unfold children_named. cbn.
  rewrite decide_False by done. rewrite decide_True by done. cbn.
  f_equal. unfold lap'.
  destruct (omap id trackpoints) as [|tp rest]; [done|].
  by rewrite bool_decide_eq_true_2 by (cbn; lia).
Qed.

(** X12. The document of [build_xml] has one Activities node with one
    Activity, which has the sport as attribute and holds the id and
    the lap.  The lap is the one given, and gets a track, as its last
    child, exactly when some trackpoint is not [None]; the track holds
    the trackpoints that are not [None], in their order. *)
Theorem build_tree_shape (a_id ex_type : string) (lap : element)
    (trackpoints : list (option element)) :
  build_tree a_id ex_type lap trackpoints =
  Element (Tag "TrainingCenterDatabase") (el_attrib create_root) None
    [Element (Tag "Activities") [] None
       [Element (Tag "Activity") [(Tag "Sport", ex_type)] None
          [leaf (Tag "Id") (Str a_id);
           if bool_decide (omap id trackpoints ≠ [])
           then append lap (Element (Tag "Track") [] None (omap id trackpoints))
           else lap]]].
Proof.
  unfold build_tree. rewrite build_track_eq. cbn.
  do 4 f_equal.
  destruct (omap id trackpoints) as [|tp rest]; [done|].
  by rewrite bool_decide_eq_true_2 by (cbn; lia).
Qed.

Lemma create_trackpoint_is_Some (data : observation) :
  (is_Some (altitude data) → is_Some (latitude data)) →
  is_Some (create_trackpoint data).
Proof.
  intros Hpos. unfold create_trackpoint.
  destruct (altitude data) as [a|], (longitude data) as [lo|],
    (latitude data) as [la|], (heart_rate data) as [h|], (cadence data) as [c|];
    cbn;
    try destruct (num_truthy a); try destruct (num_truthy lo);
    try destruct (int_truthy h); try destruct (num_truthy c);
    cbn; try case_bool_decide; eauto;
    by (destruct Hpos; eauto).
Qed.

Section PipelineMore.
Variable utc_time_string : Z → option string.
Variable int_of_string : string → option Z.
Variable float_of_string : string → option Q.
Variable fetch_live_data : string → option (list live_entry).
Variable fetch_location_data : string → option (list location_entry).

(** Every merged observation with an altitude has a latitude. *)
Lemma merged_position_ok loc live out live' :
  merge_location_and_live_data utc_time_string loc live = Some (out, live') →
  ∀ k o, (k, o) ∈ out → is_Some (altitude o) → is_Some (latitude o).
Proof.
  intros (m & Hm & ->)%merge_inv k o' Hin.
  pose proof (merge_unsorted_hr_ok _ _ _ _ _ Hm) as Hok.
  apply merge_unsorted_inv in Hm as (m0 & H0 & H1).
  destruct (fill_sorted_items_from m 0 k o' Hok Hin) as (o & Hk & [_ (Hla & _ & Hal)]).
  rewrite Hla, Hal.
  assert (Hall : map_Forall (λ _ o, is_Some (altitude o) → is_Some (latitude o)) m);
    [|by apply (Hall k)].
  eapply (live_loop_ind utc_time_string
            (map_Forall (λ _ o, is_Some (altitude o) → is_Some (latitude o))));
    [| exact H1 |].
  - intros m1 e m2 e2 Hm1 Hs. unfold live_step in Hs. cbn zeta in Hs.
    destruct (utc_time_string _) as [t|]; simplify_eq/=.
    repeat (apply store_field_forall; [apply _ | | |]); try done;
      try (intros ? ? [? ?]; done).
  - eapply (location_loop_forall _ (λ o, is_Some (altitude o) → is_Some (latitude o)));
      [| |exact H0]; [eauto | apply map_Forall_empty].
Qed.

(** X13. Building the document of an exercise fails only where its
    parts fail: it returns if and only if the lap is built, the files
    that the two flags ask for are read, and the merge returns.  No
    merged observation makes [create_trackpoint] raise. *)
Theorem exercise_tree_returns_iff (ex exercise : exercise) :
  is_Some (exercise_tree utc_time_string int_of_string float_of_string
                         fetch_live_data fetch_location_data ex exercise) ↔
  is_Some (create_lap int_of_string float_of_string
             (replace_space_T (ex_start_time exercise) ++ "Z")%string
             (ex_duration exercise) (ex_distance exercise)
             (ex_total_calorie exercise) (ex_mean_heart_rate exercise)
             (ex_max_heart_rate exercise) (ex_mean_speed exercise)
             (ex_max_speed exercise) (ex_mean_cadence exercise)
             (ex_max_cadence exercise)) ∧
  ∃ live loc,
    (if str_truthy (ex_live_data ex)
     then fetch_live_data (ex_datauuid ex) else Some []) = Some live ∧
    (if str_truthy (ex_location_data ex)
     then fetch_location_data (ex_datauuid ex) else Some []) = Some loc ∧
    is_Some (merge_location_and_live_data utc_time_string loc live).
Proof.
  unfold exercise_tree. cbn zeta. split.
  - intros [root H].
    apply bind_Some in H as (lap0 & Hlap0 & H).
    apply bind_Some in H as (live & Hlive & H).
    apply bind_Some in H as (loc & Hloc & H).
    apply bind_Some in H as ([out live'] & Hmerge & H).
    split; [eauto|]. exists live, loc. rewrite Hmerge. eauto.
  - intros [[lap0 Hlap0] (live & loc & Hlive & Hloc & [[out live'] Hmerge])].
    rewrite Hlap0, Hlive, Hloc. cbn. rewrite Hmerge. cbn.
    assert (Htps : is_Some (mapM (λ d : Z * observation, create_trackpoint d.2) out)).
    { apply mapM_is_Some, Forall_forall. intros [k o] Hin.
      apply create_trackpoint_is_Some. by eapply merged_position_ok. }
    destruct Htps as [tps ->]. cbn. eauto.
Qed.

(** X14. In the document of an exercise the lap carries the start
    time of the exercise, with T for the space and a closing Z, and its
    track lists the trackpoints of the merged observations in ascending
    order of their keys, those for which [create_trackpoint] returns
    [None] left out. *)
Theorem exercise_tree_track (ex exercise : exercise) (root : element) :
  exercise_tree utc_time_string int_of_string float_of_string
                fetch_live_data fetch_location_data ex exercise = Some root →
  ∃ lap live loc out live' trackpoints,
    document_lap root = Some lap ∧
    el_attrib lap
    = [(Tag "StartTime", (replace_space_T (ex_start_time exercise) ++ "Z")%string)] ∧
    (if str_truthy (ex_live_data ex)
     then fetch_live_data (ex_datauuid ex) else Some []) = Some live ∧
    (if str_truthy (ex_location_data ex)
     then fetch_location_data (ex_datauuid ex) else Some []) = Some loc ∧
    merge_location_and_live_data utc_time_string loc live = Some (out, live') ∧
    StronglySorted Z.lt out.*1 ∧
    Forall2 (λ p tp, create_trackpoint p.2 = Some tp) out trackpoints ∧
    has_child "Track" lap = bool_decide (omap id trackpoints ≠ []) ∧
    (∀ track, track ∈ children_named "Track" lap →
              el_children track = omap id trackpoints).
Proof.
  unfold exercise_tree. cbn zeta. intros H.
  apply bind_Some in H as (lap0 & Hlap0 & H).
  apply bind_Some in H as (live & Hlive & H).
  apply bind_Some in H as (loc & Hloc & H).
  apply bind_Some in H as ([out live'] & Hmerge & H).
  apply bind_Some in H as (tps & Htps & H). simplify_eq/=.
  destruct (create_lap_children _ _ _ _ _ _ _ _ _ _ _ _ _ Hlap0)
    as (Htag & Hattr & _).
  pose proof (create_lap_lap_like _ _ _ _ _ _ _ _ _ _ _ _ _ Hlap0) as [_ Hno].
  eexists _, live, loc, out, live', tps.
  split; [by apply document_lap_build_tree_eq|].
  apply merge_inv in Hmerge as Hsorted. destruct Hsorted as (m & _ & Hout).
  split_and!; try done.
  - case_bool_decide; by rewrite ?el_attrib_append.
  - rewrite Hout, fill_heart_rate_fst. apply sorted_items_keys.
  - by apply mapM_Some.
  - case_bool_decide as Hne.
    + rewrite has_child_append. cbn. by rewrite orb_true_r.
    + unfold has_child. by rewrite Hno.
  - intros track. case_bool_decide as Hne.
    + rewrite children_named_append, Hno. cbn.
      by intros ->%list_elem_of_singleton.
    + rewrite Hno. by intros ?%elem_of_nil.
Qed.
End PipelineMore.

(** ** The script *)

Section ScriptProperties.
Variable utc_time_string : Z → option string.
Variable int_of_string : string → option Z.
Variable float_of_string : string → option Q.
Variable fetch_live_data : string → option (list live_entry).
Variable fetch_location_data : string → option (list location_entry).
Variable tostring : element → string.

Abbreviation document_of ex :=
  (prepare_exercise_data utc_time_string int_of_string float_of_string
                         fetch_live_data fetch_location_data tostring ex ex).

Abbreviation run :=
  (export_loop utc_time_string int_of_string float_of_string
               fetch_live_data fetch_location_data tostring).

Lemma run_app exercises1 : ∀ files exercises2,
  run files (exercises1 ++ exercises2) =
  if (run files exercises1).2
  then run (run files exercises1).1 exercises2
  else run files exercises1.
Proof.
  induction exercises1 as [|ex exs IH]; intros files exercises2; [done|].
  cbn. destruct (document_of ex); [apply IH | done].
Qed.

Lemma run_complete exercises : ∀ files,
  Forall (λ ex, is_Some (document_of ex)) exercises →
  (run files exercises).2 = true ∧
  (∀ name, (∀ ex, ex ∈ exercises → export_name ex ≠ name) →
           (run files exercises).1 !! name = files !! name) ∧
  (∀ (i : nat) ex, exercises !! i = Some ex →
     (∀ (j : nat) ex', (i < j)%nat → exercises !! j = Some ex' →
                       export_name ex' ≠ export_name ex) →
     (run files exercises).1 !! export_name ex = document_of ex).
Proof.
  induction exercises as [|ex exs IH]; intros files Hall.
  - split; [done|]. split; [done|]. intros i ex Hi. done.
  - apply Forall_cons in Hall as [[xml Hxml] Hall]. cbn. rewrite Hxml.
    destruct (IH (write_to_file (export_name ex) xml files) Hall) as (Hc & Hother & Hmine).
    split; [done|]. split.
    + intros name Hname. rewrite Hother.
      * unfold write_to_file. rewrite lookup_insert_ne; [done|].
        apply Hname. by left.
      * intros ex' Hex'. apply Hname. by right.
    + intros [|i] ex0 Hi Hlater; simplify_eq/=.
      * rewrite Hother.
        -- unfold write_to_file. by rewrite lookup_insert_eq.
        -- intros ex' [j Hj]%list_elem_of_lookup_1.
           apply (Hlater (S j)); [lia | done].
      * apply (Hmine i); [done|]. intros j ex' Hj Hex'.
        apply (Hlater (S j)); [lia | done].
Qed.


(** X16. The loop has no fault isolation: at the first exercise whose
    document cannot be built the script ends.  The files of the
    exercises before it are written as in a run over those alone, and
    no file of a later exercise is written. *)
Theorem export_loop_aborts (files : gmap string string)
    (before after : list exercise) (bad : exercise) :
  (∀ ex, ex ∈ before →
         is_Some (prepare_exercise_data utc_time_string int_of_string float_of_string
                    fetch_live_data fetch_location_data tostring ex ex)) →
  prepare_exercise_data utc_time_string int_of_string float_of_string
    fetch_live_data fetch_location_data tostring bad bad = None →
  export_loop utc_time_string int_of_string float_of_string
              fetch_live_data fetch_location_data tostring files
              (before ++ bad :: after)
  = ((export_loop utc_time_string int_of_string float_of_string
                  fetch_live_data fetch_location_data tostring files before).1,
     false).
Proof.
  intros Hall%Forall_forall Hbad.
  destruct (run_complete before files Hall) as (Hc & _).
  pose proof (run_app before files (bad :: after)) as Happ.
  rewrite Hc in Happ. rewrite Happ. cbn. by rewrite Hbad.
Qed.
End ScriptProperties.

(** ** The further properties at the sample data *)

Lemma merged_keys_exact_witness :
  ∃ out live',
    merge_location_and_live_data sample_clock sample_locations sample_live
    = Some (out, live') ∧
    ∀ k, k ∈ out.*1 ↔
         k ∈ loc_start_time <$> sample_locations ∨
         ∃ e, e ∈ sample_live ∧ has_sensor_data e = true ∧
              snapped_time sample_locations (live_start_time e) = k.
Proof.
  eexists _, _. split; [vm_compute; reflexivity|].
  eapply (merged_keys_exact sample_clock sample_locations sample_live).
  vm_compute. reflexivity.
Defined.

Lemma merged_length_bound_witness :
  ∃ out live',
    merge_location_and_live_data sample_clock sample_locations sample_live
    = Some (out, live') ∧
    NoDup out.*1 ∧
    (length out ≤ length sample_locations + length sample_live)%nat.
Proof.
  eexists _, _. split; [vm_compute; reflexivity|].
  eapply (merged_length_bound sample_clock sample_locations sample_live).
  vm_compute. reflexivity.
Defined.

Lemma merged_time_of_key_witness :
  ∃ out live',
    merge_location_and_live_data sample_clock sample_locations sample_live
    = Some (out, live') ∧
    ∀ k o, (k, o) ∈ out → sample_clock k = Some (time o).
Proof.
  eexists _, _. split; [vm_compute; reflexivity|].
  eapply (merged_time_of_key sample_clock sample_locations sample_live).
  vm_compute. reflexivity.
Defined.

Lemma merge_again_witness :
  ∃ out live',
    merge_location_and_live_data sample_clock sample_locations sample_live
    = Some (out, live') ∧
    merge_location_and_live_data sample_clock sample_locations live'
    = Some (out, live').
Proof.
  eexists _, _. split; [vm_compute; reflexivity|].
  apply (merge_again sample_clock sample_locations sample_live).
  vm_compute. reflexivity.
Defined.

Lemma create_lap_shape_witness :
  ∃ lap,
    create_lap sample_int_of_string sample_float_of_string
               "2020-01-01T10:00:00.000Z" "1800000" "5000.0" "250.0"
               "" "" "" "" "" "" = Some lap ∧
    child_tags lap `sublist_of` lap_schema.
Proof.
  eexists. split; [vm_compute; reflexivity|].
  eapply (create_lap_shape sample_int_of_string sample_float_of_string
            "2020-01-01T10:00:00.000Z" "1800000" "5000.0" "250.0" "" "" "" "" "" "").
  vm_compute. reflexivity.
Defined.

Lemma exercise_tree_track_witness :
  ∃ root lap,
    exercise_tree sample_clock sample_int_of_string sample_float_of_string
                  sample_fetch_live_data sample_fetch_location_data
                  sample_exercise sample_exercise = Some root ∧
    document_lap root = Some lap ∧
    el_attrib lap = [(Tag "StartTime", "2020-01-01T10:00:00.000Z")].
Proof.
  eexists _.
  edestruct (exercise_tree_track sample_clock sample_int_of_string
               sample_float_of_string sample_fetch_live_data
               sample_fetch_location_data sample_exercise sample_exercise)
    as (lap & live & loc & out & live' & tps & Hlap & Hattr & _);
    [vm_compute; reflexivity|].
  exists lap. split; [vm_compute; reflexivity|]. split; [exact Hlap | exact Hattr].
Defined.


Lemma export_loop_aborts_witness :
  export_loop sample_clock sample_int_of_string sample_float_of_string
              sample_fetch_live_data sample_fetch_location_data sample_tostring
              ∅ ([sample_exercise] ++ sample_unreadable_exercise :: [sample_exercise])
  = ((export_loop sample_clock sample_int_of_string sample_float_of_string
                  sample_fetch_live_data sample_fetch_location_data sample_tostring
                  ∅ [sample_exercise]).1, false).
Proof.
  apply (export_loop_aborts sample_clock sample_int_of_string sample_float_of_string
           sample_fetch_live_data sample_fetch_location_data sample_tostring
           ∅ [sample_exercise] [sample_exercise] sample_unreadable_exercise).
  - intros ex ->%list_elem_of_singleton. vm_compute. eauto.
  - vm_compute. reflexivity.
Defined.

(** * The other scripts *)

(** ** Rows in a series of files *)

Lemma writerow_snoc {R} (row : R) files dest :
  writerow row (files ++ [dest])
  = files ++ [CsvFile (file_number dest) (file_rows dest ++ [row])].
Proof.
  unfold writerow. rewrite reverse_snoc. cbn. by rewrite reverse_involutive.
Qed.

Lemma length_concat_full {R} (L : nat) (full : list (csv_file R)) :
  Forall (λ f, length (file_rows f) = L) full →
  length (concat (file_rows <$> full)) = (length full * L)%nat.
Proof.
  induction 1 as [|f full Hf _ IH]; [done|]. cbn.
  rewrite length_app, IH, Hf. lia.
Qed.

Lemma mod_full (L k l : nat) :
  (0 < L)%nat → (1 ≤ l ≤ L)%nat →
  (((l + k * L) mod L = 0)%nat ↔ l = L) ∧
  (l = L → ((l + k * L) / L = S k)%nat).
Proof.
  intros HL Hl. rewrite Nat.Div0.mod_add. split.
  - split.
    + intros Hm. destruct (decide (l = L)) as [|Hne]; [done|].
      rewrite Nat.mod_small in Hm by lia. lia.
    + intros ->. apply Nat.Div0.mod_same.
  - intros ->. rewrite Nat.div_add by lia. rewrite Nat.div_same by lia. lia.
Qed.

(** One more row keeps the files in chunks. *)
Lemma write_line_chunked {R} (L : nat) (files : list (csv_file R)) written row :
  (0 < L)%nat →
  chunked L files written →
  (write_line L (length written, files) row).1 = S (length written) ∧
  chunked L (write_line L (length written, files) row).2 (written ++ [row]).
Proof.
  intros HL (Hcat & Hnum & Hshape). split; [done|]. cbn.
  destruct Hshape as [[-> ->] | (full & dest & -> & Hfull & Hdest)].
  - cbn. rewrite Nat.Div0.mod_0_l. cbn. rewrite Nat.Div0.div_0_l. cbn.
    split; [done|]. split; [done|]. right. exists [], (CsvFile 1 [row]).
    split; [done|]. split; [constructor|]. cbn. lia.
  - assert (Hlen : length written
                   = (length (file_rows dest) + length full * L)%nat).
    { rewrite <- Hcat, fmap_app, concat_app, length_app. cbn.
      rewrite app_nil_r, (length_concat_full L) by done. lia. }
    destruct (mod_full L (length full) (length (file_rows dest)) HL Hdest)
      as [Hmod Hdiv].
    rewrite length_app in Hnum. cbn in Hnum.
    rewrite Hlen. destruct (decide (length (file_rows dest) = L)) as [Heq | Hne].
    + rewrite (proj2 (Nat.eqb_eq _ _) (proj2 Hmod Heq)), (Hdiv Heq).
      rewrite writerow_snoc. cbn. split; [|split].
      * rewrite !fmap_app, !concat_app. cbn. rewrite !app_nil_r.
        rewrite <- Hcat, fmap_app, concat_app. cbn. by rewrite app_nil_r, <- app_assoc.
      * rewrite !fmap_app, !length_app. cbn.
        rewrite fmap_app in Hnum. cbn in Hnum. rewrite Hnum.
        replace (length full + 1 + 1)%nat with (S (length full + 1)) by lia.
        by rewrite seq_S.
      * right. exists (full ++ [dest]), (CsvFile (S (length full) + 1) [row]).
        split; [done|]. split; [|cbn; lia].
        apply Forall_app. split; [done|]. by constructor.
    + assert (Hnz : ((length (file_rows dest) + length full * L) mod L =? 0)%nat = false).
      { apply Nat.eqb_neq. intros Hm. by apply Hne, Hmod. }
      rewrite Hnz, writerow_snoc. split; [|split].
      * rewrite !fmap_app, !concat_app. cbn. rewrite !app_nil_r.
        rewrite <- Hcat, fmap_app, concat_app. cbn. by rewrite app_nil_r, <- app_assoc.
      * rewrite fmap_app, length_app in *. cbn in *. done.
      * right. exists full, (CsvFile (file_number dest) (file_rows dest ++ [row])).
        split; [done|]. split; [done|]. cbn. rewrite length_app. cbn. lia.
Qed.

Lemma write_lines_from {R} (L : nat) (rows : list R) : ∀ files written,
  (0 < L)%nat →
  chunked L files written →
  chunked L (fold_left (write_line L) rows (length written, files)).2
          (written ++ rows).
Proof.
  induction rows as [|row rows IH]; intros files written HL Hch; cbn -[write_line].
  - by rewrite app_nil_r.
  - destruct (write_line_chunked L files written row HL Hch) as [Hn Hch'].
    destruct (write_line L (length written, files) row) as [n files'] eqn:Hst.
    cbn in Hn, Hch'. subst n.
    replace (S (length written)) with (length (written ++ [row]))
      by (rewrite length_app; cbn; lia).
    rewrite (assoc_L (++) written [row] rows : written ++ row :: rows = _) by done.
    by apply IH.
Qed.

(** X17. [write_to_file] of [activity.py] writes every row once and
    in order, in files numbered from 1, a hundred rows in every file
    but the last, which has between one and a hundred; without rows it
    writes no file. *)
Theorem activity_write_to_file_chunked (data : list (string * Activity.day_row)) :
  chunked Activity.LINES_PER_FILE (Activity.write_to_file data) data ∧
  (Activity.write_to_file data = [] ↔ data = []).
Proof.
  assert (Hch : chunked Activity.LINES_PER_FILE (Activity.write_to_file data) data).
  { apply (write_lines_from Activity.LINES_PER_FILE data [] []).
    - unfold Activity.LINES_PER_FILE. lia.
    - split; [done|]. split; [done|]. by left. }
  split; [done|]. destruct Hch as (Hcat & _ & Hshape). split.
  - intros Hnil. by rewrite Hnil in Hcat.
  - by intros ->.
Qed.

(** X18. [write_to_file] of [weight.py] raises on an empty list, and
    on any other list writes every row once and in order, in files
    numbered from 1, seventy-five rows in every file but the last. *)
Theorem weight_write_to_file_chunked {R} (weight_data : list R) :
  (Weight.write_to_file weight_data = None ↔ weight_data = []) ∧
  (∀ files, Weight.write_to_file weight_data = Some files →
            chunked Weight.LINES_PER_FILE files weight_data).
Proof.
  unfold Weight.write_to_file. split.
  - by destruct weight_data.
  - intros files H. destruct weight_data as [|row rows]; [done|].
    cbn in H. injection H as <-.
    apply (write_lines_from Weight.LINES_PER_FILE (row :: rows) [] []).
    + unfold Weight.LINES_PER_FILE. lia.
    + split; [done|]. split; [done|]. by left.
Qed.

(** ** [merge_data] of [activity.py] *)

Lemma calories_loop_dom calories_data : ∀ m,
  dom (Activity.calories_loop calories_data m)
  = dom m ∪ list_to_set calories_data.*1.
Proof.
  unfold Activity.calories_loop.
  induction calories_data as [|[d c] rest IH]; intros m; cbn.
  - set_solver.
  - rewrite IH, dom_insert_L. set_solver.
Qed.

Lemma floors_step_cases (m : gmap string Activity.day_row) d f :
  (m !! d = None ∧ Activity.floors_step m (d, f) = None) ∨
  (∃ row, m !! d = Some row ∧
          Activity.floors_step m (d, f) = Some (<[d := Activity.set_floors f row]> m)).
Proof.
  unfold Activity.floors_step. destruct (m !! d) as [row|] eqn:Hm.
  - right. exists row. split; [done|].
    rewrite bool_decide_eq_false_2 by done. cbn. by rewrite Hm.
  - left. split; [done|]. by rewrite bool_decide_eq_true_2.
Qed.

Lemma floors_loop_dom floors_data : ∀ m m',
  Activity.floors_loop floors_data m = Some m' → dom m' = dom m.
Proof.
  induction floors_data as [|[d f] rest IH]; intros m m' H; [by simplify_eq/=|].
  change (Activity.floors_step m (d, f) ≫= Activity.floors_loop rest = Some m') in H.
  destruct (floors_step_cases m d f) as [[_ Hs] | (row & Hm & Hs)];
    rewrite Hs in H; [done|]. cbn in H.
  rewrite (IH _ _ H), dom_insert_L.
  assert (d ∈ dom m) by (apply elem_of_dom; eauto). set_solver.
Qed.

Lemma floors_loop_None floors_data : ∀ m,
  Activity.floors_loop floors_data m = None ↔
  ∃ d, d ∈ floors_data.*1 ∧ d ∉ dom m.
Proof.
  induction floors_data as [|[d f] rest IH]; intros m.
  - cbn. split; [done|]. by intros (d & Hd%elem_of_nil & _).
  - change (Activity.floors_loop ((d, f) :: rest) m)
      with (Activity.floors_step m (d, f) ≫= Activity.floors_loop rest).
    destruct (floors_step_cases m d f) as [[Hm Hs] | (row & Hm & Hs)];
      rewrite Hs; cbn.
    + split; [|done]. intros _. exists d. split; [by left|].
      by apply not_elem_of_dom.
    + rewrite IH. rewrite dom_insert_L.
      assert (d ∈ dom m) by (apply elem_of_dom; eauto).
      split.
      * intros (d' & Hd' & Hn). exists d'. split; [by right | set_solver].
      * intros (d' & Hd' & Hn). exists d'.
        apply elem_of_cons in Hd' as [-> | Hd']; [done|]. split; [done | set_solver].
Qed.

(** X19. [merge_data] raises [KeyError] exactly when floors were
    recorded on a day that has no calories: for such a day the function
    reads [merged_data[date]] before the day is a key. *)
Theorem merge_data_raises_iff (floors_data calories_data : list (string * Z))
    (activities : list (string * Activity.activity_day)) :
  Activity.merge_data floors_data calories_data activities = None ↔
  ∃ d, d ∈ floors_data.*1 ∧ d ∉ calories_data.*1.
Proof.
  unfold Activity.merge_data. cbn zeta.
  destruct (Activity.floors_loop floors_data (Activity.calories_loop calories_data ∅))
    as [m|] eqn:Hfl; cbn.
  - split; [done|]. intros Hex.
    assert (Hnone : Activity.floors_loop floors_data
                      (Activity.calories_loop calories_data ∅) = None); [|congruence].
    apply floors_loop_None. destruct Hex as (d & Hd & Hn). exists d.
    split; [done|]. rewrite calories_loop_dom, dom_empty_L. set_solver.
  - split; [|done]. intros _.
    apply floors_loop_None in Hfl as (d & Hd & Hn). exists d. split; [done|].
    rewrite calories_loop_dom, dom_empty_L in Hn. set_solver.
Qed.

Lemma activities_step_dom (m : gmap string Activity.day_row) d dic k :
  k ∈ dom (Activity.activities_step m (d, dic)) ↔
  (k ≠ d ∧ k ∈ dom m) ∨ (k = d ∧ ¬ (d ∈ dom m ∧ Activity.steps dic = 0)).
Proof.
  unfold Activity.activities_step. destruct (m !! d) as [row|] eqn:Hm.
  - assert (Hd : d ∈ dom m) by (apply elem_of_dom; eauto).
    destruct (Activity.steps dic =? 0) eqn:Hs.
    + apply Z.eqb_eq in Hs. rewrite dom_delete_L. set_solver.
    + apply Z.eqb_neq in Hs. rewrite dom_insert_L.
      destruct (decide (k = d)); set_solver.
  - apply not_elem_of_dom in Hm. rewrite dom_insert_L.
    destruct (decide (k = d)); set_solver.
Qed.

Lemma activities_fold_dom activities : ∀ (m : gmap string Activity.day_row) k,
  NoDup activities.*1 →
  k ∈ dom (fold_left Activity.activities_step activities m) ↔
  (k ∈ dom m ∧ ∀ dic, (k, dic) ∈ activities → Activity.steps dic ≠ 0) ∨
  ((k ∉ dom m) ∧ k ∈ activities.*1).
Proof.
  induction activities as [|[d dic] rest IH]; intros m k Hnd.
  - cbn. split.
    + intros Hk. left. split; [done|]. intros dic Hin. by apply elem_of_nil in Hin.
    + intros [[Hk _] | [_ Hin]]; [done | by apply elem_of_nil in Hin].
  - cbn [fold_left]. apply NoDup_cons in Hnd as [Hd Hnd].
    rewrite (IH (Activity.activities_step m (d, dic)) k Hnd).
    pose proof (activities_step_dom m d dic k) as Hstep.
    assert (Hrest : ∀ dic', (d, dic') ∈ rest → False).
    { intros dic' Hin. apply Hd. apply list_elem_of_fmap. by exists (d, dic'). }
    assert (Hpairs : ∀ dic', (k, dic') ∈ (d, dic) :: rest ↔
                             (k = d ∧ dic' = dic) ∨ (k, dic') ∈ rest).
    { intros dic'. rewrite elem_of_cons. split.
      - intros [[= -> ->] | ?]; auto.
      - intros [[-> ->] | ?]; auto. }
    assert (Hkeys : k ∈ ((d, dic) :: rest).*1 ↔ k = d ∨ k ∈ rest.*1).
    { cbn. by rewrite elem_of_cons. }
    destruct (decide (k = d)) as [-> | Hne].
    + assert (Hnokey : d ∈ rest.*1 → False) by done.
      destruct (decide (d ∈ dom m)) as [Hdm | Hdm],
        (decide (Activity.steps dic = 0)) as [Hz | Hz].
      * split.
        -- intros [[Hk _] | [_ Hin]]; [|done].
           apply Hstep in Hk as [[? _] | [_ Hk]]; [done|]. by destruct Hk.
        -- intros [[_ Hall] | [Hk _]]; [|done].
           destruct (Hall dic); [by left | done].
      * split.
        -- intros _. left. split; [done|]. intros dic' Hin.
           apply Hpairs in Hin as [[_ ->] | Hin]; [done | by destruct (Hrest dic')].
        -- intros _. left. split.
           ++ apply Hstep. right. split; [done|]. by intros [_ ?].
           ++ intros dic' Hin. by destruct (Hrest dic').
      * split.
        -- intros _. right. split; [done | by left].
        -- intros _. left. split.
           ++ apply Hstep. right. split; [done|]. by intros [? _].
           ++ intros dic' Hin. by destruct (Hrest dic').
      * split.
        -- intros _. right. split; [done | by left].
        -- intros _. left. split.
           ++ apply Hstep. right. split; [done|]. by intros [? _].
           ++ intros dic' Hin. by destruct (Hrest dic').
    + assert (Hsame : k ∈ dom (Activity.activities_step m (d, dic)) ↔ k ∈ dom m).
      { rewrite Hstep. split; [by intros [[_ ?] | [? _]] | by left]. }
      split.
      * intros [[Hk Hall] | [Hn Hin]].
        -- left. split; [by apply Hsame|]. intros dic' Hin.
           apply Hpairs in Hin as [[? _] | Hin]; [done | by apply Hall].
        -- right. split; [by rewrite <- Hsame | by right].
      * intros [[Hk Hall] | [Hn Hin]].
        -- left. split; [by apply Hsame|]. intros dic' Hin. apply Hall. by right.
        -- right. split; [by rewrite Hsame|].
           apply Hkeys in Hin as [? | ?]; done.
Qed.

(** *** The order of the dates *)

Lemma ascii_compare_lt_trans a b c :
  Ascii.compare a b = Lt → Ascii.compare b c = Lt → Ascii.compare a c = Lt.
Proof. unfold Ascii.compare. rewrite !N.compare_lt_iff. lia. Qed.

Lemma string_compare_lt_trans : ∀ x y z,
  String.compare x y = Lt → String.compare y z = Lt → String.compare x z = Lt.
Proof.
  induction x as [|a x IH]; intros [|b y] [|c z]; cbn; try done.
  destruct (Ascii.compare a b) eqn:Hab; try done;
    destruct (Ascii.compare b c) eqn:Hbc; try done.
  - apply Ascii.compare_eq_iff in Hab as ->. rewrite Hbc. apply IH.
  - apply Ascii.compare_eq_iff in Hab as ->. by rewrite Hbc.
  - apply Ascii.compare_eq_iff in Hbc as <-. by rewrite Hab.
  - by rewrite (ascii_compare_lt_trans a b c).
Qed.

Lemma string_leb_cases x y :
  String.leb x y = true ↔ String.compare x y = Lt ∨ x = y.
Proof.
  unfold String.leb. destruct (String.compare x y) eqn:Hc.
  - apply String.compare_eq_iff in Hc. tauto.
  - tauto.
  - split; [done|]. intros [? | ->]; [done|].
    assert (Heq : String.compare y y = Eq).
    { clear. induction y as [|a y IH]; cbn; [done|].
      unfold Ascii.compare. by rewrite N.compare_refl. }
    congruence.
Qed.

Global Instance date_le_transitive : Transitive Activity.date_le.
Proof.
  intros p q r. unfold Activity.date_le. rewrite !string_leb_cases.
  intros [Hpq | ->] [Hqr | <-]; eauto using string_compare_lt_trans.
Qed.

Global Instance date_le_total : Total Activity.date_le.
Proof. intros p q. apply String.leb_total. Qed.

Lemma dates_ascend (m : gmap string Activity.day_row) :
  StronglySorted (λ a b, String.ltb a b = true)
                 (merge_sort Activity.date_le (map_to_list m)).*1.
Proof.
  assert (Hs : StronglySorted Activity.date_le
                 (merge_sort Activity.date_le (map_to_list m)))
    by apply (StronglySorted_merge_sort Activity.date_le).
  assert (Hnd : NoDup (merge_sort Activity.date_le (map_to_list m)).*1).
  { rewrite merge_sort_Permutation. apply NoDup_fst_map_to_list. }
  induction Hs as [|p l Hs IH Hall]; [constructor|].
  cbn in Hnd. apply NoDup_cons in Hnd as [Hp Hnd]. cbn.
  constructor; [by apply IH|].
  apply Forall_fmap, Forall_forall. intros q Hq. cbn.
  rewrite Forall_forall in Hall. specialize (Hall q Hq).
  apply string_leb_cases in Hall as [Hlt | Heq].
  - unfold String.ltb. by rewrite Hlt.
  - destruct Hp. rewrite Heq. apply list_elem_of_fmap. by exists q.
Qed.

(** X20. When [merge_data] returns, for activities with one entry a
    day, the days of the result ascend strictly, and they are the days
    with calories, those on which the activity has no steps left out,
    and the days that have an activity and no calories.  A day without
    steps is dropped only when it has calories. *)
Theorem merge_data_dates (floors_data calories_data : list (string * Z))
    (activities : list (string * Activity.activity_day))
    (out : list (string * Activity.day_row)) :
  NoDup activities.*1 →
  Activity.merge_data floors_data calories_data activities = Some out →
  StronglySorted (λ a b, String.ltb a b = true) out.*1 ∧
  ∀ d, d ∈ out.*1 ↔
       (d ∈ calories_data.*1 ∧
        ∀ dic, (d, dic) ∈ activities → Activity.steps dic ≠ 0) ∨
       ((d ∉ calories_data.*1) ∧ d ∈ activities.*1).
Proof.
  intros Hnd H. unfold Activity.merge_data in H. cbn zeta in H.
  apply bind_Some in H as (m & Hfl & [= <-]).
  split; [apply dates_ascend|]. intros d.
  assert (Hkeys : d ∈ (merge_sort Activity.date_le
                         (map_to_list (fold_left Activity.activities_step activities m))).*1
                  ↔ d ∈ dom (fold_left Activity.activities_step activities m)).
  { rewrite merge_sort_Permutation, list_elem_of_fmap, elem_of_dom. split.
    - intros ([d' row] & -> & Hin). apply elem_of_map_to_list in Hin. eauto.
    - intros [row Hrow]. exists (d, row). split; [done|].
      by apply elem_of_map_to_list. }
  rewrite Hkeys, (activities_fold_dom activities m d Hnd).
  apply floors_loop_dom in Hfl.
  rewrite Hfl, calories_loop_dom, dom_empty_L.
  assert (Hd : d ∈ (∅ : gset string) ∪ list_to_set calories_data.*1
               ↔ d ∈ calories_data.*1) by set_solver.
  by rewrite Hd.
Qed.

(** *** The rows *)

Lemma calories_loop_forall (P : string → Activity.day_row → Prop) calories_data :
  ∀ m,
  (∀ d c, (d, c) ∈ calories_data → P d (Activity.DayRow (Some c) None None None)) →
  map_Forall P m → map_Forall P (Activity.calories_loop calories_data m).
Proof.
  unfold Activity.calories_loop.
  induction calories_data as [|[d c] rest IH]; intros m HP Hm; [done|]. cbn.
  apply IH.
  - intros d' c' Hin. apply HP. by right.
  - apply map_Forall_insert_2; [|done]. apply HP. by left.
Qed.

Lemma floors_loop_forall (P : string → Activity.day_row → Prop) floors_data :
  ∀ m m',
  (∀ d f row, (d, f) ∈ floors_data → P d row → P d (Activity.set_floors f row)) →
  map_Forall P m →
  Activity.floors_loop floors_data m = Some m' → map_Forall P m'.
Proof.
  induction floors_data as [|[d f] rest IH]; intros m m' HP Hm H; [by simplify_eq/=|].
  change (Activity.floors_step m (d, f) ≫= Activity.floors_loop rest = Some m') in H.
  destruct (floors_step_cases m d f) as [[_ Hs] | (row & Hrow & Hs)];
    rewrite Hs in H; [done|]. cbn in H.
  eapply IH; [| |exact H].
  - intros d' f' row' Hin. apply HP. by right.
  - apply map_Forall_insert_2; [|done]. apply HP; [by left|]. by apply (Hm d).
Qed.

Lemma activities_fold_forall (P : string → Activity.day_row → Prop) activities :
  ∀ m,
  (∀ d dic row, (d, dic) ∈ activities → P d row →
                P d (Activity.update_activity dic row)) →
  (∀ d dic, (d, dic) ∈ activities →
            P d (Activity.DayRow None None None (Some dic))) →
  map_Forall P m →
  map_Forall P (fold_left Activity.activities_step activities m).
Proof.
  induction activities as [|[d dic] rest IH]; intros m Hup Hnew Hm; [done|].
  cbn [fold_left]. apply IH.
  - intros d' dic' row Hin. apply Hup. by right.
  - intros d' dic' Hin. apply Hnew. by right.
  - unfold Activity.activities_step. destruct (m !! d) as [row|] eqn:Hrow.
    + destruct (Activity.steps dic =? 0).
      * by apply map_Forall_delete.
      * apply map_Forall_insert_2; [|done]. apply Hup; [by left|]. by apply (Hm d).
    + apply map_Forall_insert_2; [|done]. apply Hnew. by left.
Qed.

(** X21. Every value of a row of the result comes from the entry of
    the same day: the calories, the floors and the activity of a day
    are those given for that day, and no row has the key Calories. *)
Theorem merge_data_rows (floors_data calories_data : list (string * Z))
    (activities : list (string * Activity.activity_day))
    (out : list (string * Activity.day_row)) :
  Activity.merge_data floors_data calories_data activities = Some out →
  ∀ d row, (d, row) ∈ out →
    Activity.calories row = None ∧
    (∀ c, Activity.calories_burned row = Some c → (d, c) ∈ calories_data) ∧
    (∀ f, Activity.floors row = Some f → (d, f) ∈ floors_data) ∧
    (∀ dic, Activity.activity row = Some dic → (d, dic) ∈ activities).
Proof.
  intros H. unfold Activity.merge_data in H. cbn zeta in H.
  apply bind_Some in H as (m & Hfl & [= <-]).
  intros d row Hin. rewrite merge_sort_Permutation in Hin.
  apply elem_of_map_to_list in Hin. revert d row Hin.
  apply activities_fold_forall.
  - intros d dic row Hin (Hc & Hcb & Hf & Ha). cbn. split_and!; try done.
    by intros dic' [= <-].
  - intros d dic Hin. cbn. split_and!; try done. by intros dic' [= <-].
  - eapply floors_loop_forall; [| |exact Hfl].
    + intros d f row Hin (Hc & Hcb & Hf & Ha). cbn. split_and!; try done.
      by intros f' [= <-].
    + apply calories_loop_forall; [|apply map_Forall_empty].
      intros d c Hin. cbn. split_and!; try done. by intros c' [= <-].
Qed.

Lemma merge_data_dates_witness :
  ∃ out,
    Activity.merge_data sample_floors sample_calories sample_activities = Some out ∧
    out.*1 = ["2020-01-01"; "2020-01-03"] ∧
    StronglySorted (λ a b, String.ltb a b = true) out.*1.
Proof.
  eexists. split; [vm_compute; reflexivity|]. split; [reflexivity|].
  eapply (merge_data_dates sample_floors sample_calories sample_activities).
  - apply (bool_decide_unpack _). vm_compute. exact I.
  - vm_compute. reflexivity.
Defined.

Lemma merge_data_rows_witness :
  ∃ out,
    Activity.merge_data sample_floors sample_calories sample_activities = Some out ∧
    ∀ d row, (d, row) ∈ out → Activity.calories row = None.
Proof.
  eexists. split; [vm_compute; reflexivity|].
  intros d row Hin.
  eapply (merge_data_rows sample_floors sample_calories sample_activities).
  - vm_compute. reflexivity.
  - exact Hin.
Defined.

(** ** The loop of [fetch_floor_data] *)

Lemma floors_on_absent d (items : list (string * Z)) :
  d ∉ items.*1 → foldr Z.add 0 (filter (λ p, p.1 = d) items).*2 = 0.
Proof.
  induction items as [|[d0 n] rest IH]; intros Hn; [done|].
  rewrite filter_cons. cbn in *. apply not_elem_of_cons in Hn as [Hne Hn].
  rewrite decide_False by congruence. by apply IH.
Qed.

Lemma add_floors_fold items : ∀ (m : gmap string Z) d,
  fold_left Activity.add_floors items m !! d =
  if bool_decide (d ∈ items.*1)
  then Some (default 0 (m !! d) + Activity.floors_on d items)
  else m !! d.
Proof.
  induction items as [|[d0 n] rest IH]; intros m d.
  - cbn. by rewrite bool_decide_eq_false_2 by (by intros ?%elem_of_nil).
  - cbn [fold_left]. rewrite IH. unfold Activity.floors_on.
    rewrite filter_cons. cbn [fst fmap list_fmap].
    assert (Hstep : ∀ k, Activity.add_floors m (d0, n) !! k =
                         if decide (k = d0) then Some (default 0 (m !! d0) + n)
                         else m !! k).
    { intros k. unfold Activity.add_floors. destruct (decide (k = d0)) as [-> | Hne].
      - destruct (m !! d0); cbn; rewrite lookup_insert_eq; [done | f_equal; lia].
      - destruct (m !! d0); by rewrite lookup_insert_ne. }
    rewrite Hstep.
    destruct (decide (d = d0)) as [-> | Hne].
    + rewrite decide_True by done.
      rewrite (bool_decide_eq_true_2 (d0 ∈ d0 :: rest.*1)) by (by left).
      cbn. case_bool_decide as Hin.
      * f_equal. lia.
      * rewrite (floors_on_absent d0 rest Hin). f_equal. lia.
    + rewrite decide_False by (cbn; congruence).
      case_bool_decide as Hin.
      * rewrite bool_decide_eq_true_2 by (by right). done.
      * rewrite bool_decide_eq_false_2; [done|].
        intros [? | ?]%elem_of_cons; done.
Qed.

Lemma floor_loop_mapM float_of_string rows : ∀ m,
  Activity.floor_loop float_of_string m rows =
  items ← mapM (Activity.read_floor_row float_of_string) rows;
  Some (fold_left Activity.add_floors items m).
Proof.
  induction rows as [|row rest IH]; intros m; [done|]. cbn.
  destruct (Activity.read_floor_row float_of_string row) as [item|]; [|done].
  cbn. rewrite IH.
  by destruct (mapM (Activity.read_floor_row float_of_string) rest).
Qed.

(** X22. The loop of [fetch_floor_data] fails exactly when the floors
    of some row are not a number; otherwise a date is a key of the
    result exactly when some row has it, and its value is the sum of
    the floors of its rows. *)
Theorem floor_loop_sums (float_of_string : string → option Q)
    (rows : list (string * string)) :
  (Activity.floor_loop float_of_string ∅ rows = None ↔
   ∃ row, row ∈ rows ∧ float_of_string row.2 = None) ∧
  (∀ floor_data items,
     Activity.floor_loop float_of_string ∅ rows = Some floor_data →
     mapM (Activity.read_floor_row float_of_string) rows = Some items →
     ∀ date, floor_data !! date =
             if bool_decide (date ∈ items.*1)
             then Some (Activity.floors_on date items) else None).
Proof.
  rewrite floor_loop_mapM. split.
  - destruct (mapM (Activity.read_floor_row float_of_string) rows) as [items|] eqn:Hm.
    + split; [done|]. intros (row & Hin & Hnone).
      apply mapM_Some in Hm.
      apply list_elem_of_lookup_1 in Hin as [i Hi].
      destruct (Forall2_lookup_l _ _ _ _ _ Hm Hi) as (item & _ & Hrow).
      unfold Activity.read_floor_row in Hrow. by rewrite Hnone in Hrow.
    + split; [|done]. intros _. apply mapM_None in Hm.
      apply Exists_exists in Hm as (row & Hin & Hrow). exists row. split; [done|].
      unfold Activity.read_floor_row in Hrow.
      by destruct (float_of_string row.2).
  - intros floor_data items H Hitems. rewrite Hitems in H. cbn in H.
    injection H as <-. intros date. rewrite add_floors_fold, lookup_empty. cbn.
    case_bool_decide; [f_equal; lia | done].
Qed.
